(** * gotlb: the per-application backend registry and the Marathon
      discovery event processor

    A shallow embedding of [frontend.go] and [providers/marathon.go].

    Conventions.
    - Go [int] values are [Z]; slices are lists; [map[string]T] is
      [gmap string T].
    - A [log.Printf] of [frontend.go] is recorded as the formatted line it
      prints; the frontend operations return the lines they log.  The
      provider's log and print lines are left out.
    - A send on one of the provider's four unbuffered channels is recorded
      in program order as a [command]; a run-time panic ends the run and
      keeps what was sent before it.
    - Values of the go-marathon client library reached through pointers
      ([*Application], [*map[string]string], [*IPAddress]) are modelled by
      the values they point to. *)

From Stdlib Require Import ZArith Lia String Ascii List.
From stdpp Require Import base option list strings gmap pretty.
Import ListNotations.

Local Open Scope string_scope.
Local Open Scope list_scope.

(** ** The strategy interface used by the Frontend *)

Module Strategy.

(** [LoadBalancingStrategy] as [frontend.go] uses it: [Next],
    [AddBackend] and [RemoveBackend] on a strategy object whose state
    has type [S]. *)
Class LoadBalancingStrategy (S : Type) := {
  Next : S -> string * S;
  AddBackend : string -> S -> S;
  RemoveBackend : string -> S -> S
}.

(** Modelled from the spec: the round-robin strategy ([RoundRobinStrategy]
    is declared in another file of the repository).  It keeps the backend list
    and a cursor; [Next] returns the backend at [cursor mod len] and
    advances the cursor, or the empty sentinel on an empty list;
    [AddBackend] appends; [RemoveBackend] deletes by value match and
    decrements the cursor when the removed index is before it. *)
Record RoundRobin := { rr_backends : list string; rr_cursor : nat }.

Fixpoint index_of (b : string) (l : list string) : option nat :=
  match l with
  | [] => None
  | x :: r => if String.eqb x b then Some 0%nat else S <$> index_of b r
  end.

Definition rr_next (s : RoundRobin) : string * RoundRobin :=
  match rr_backends s with
  | [] => ("", s)
  | _ :: _ =>
      let i := (rr_cursor s mod length (rr_backends s))%nat in
      (nth i (rr_backends s) "",
       {| rr_backends := rr_backends s; rr_cursor := S (rr_cursor s) |})
  end.

Definition rr_add (b : string) (s : RoundRobin) : RoundRobin :=
  {| rr_backends := rr_backends s ++ [b]; rr_cursor := rr_cursor s |}.

Definition rr_remove (b : string) (s : RoundRobin) : RoundRobin :=
  match index_of b (rr_backends s) with
  | None => s
  | Some i =>
      {| rr_backends := take i (rr_backends s) ++ drop (S i) (rr_backends s);
         rr_cursor := if (i <? rr_cursor s)%nat
                      then pred (rr_cursor s) else rr_cursor s |}
  end.

#[global] Instance RoundRobin_strategy : LoadBalancingStrategy RoundRobin :=
  {| Next := rr_next; AddBackend := rr_add; RemoveBackend := rr_remove |}.

Definition RoundRobinStrategy : RoundRobin :=
  {| rr_backends := []; rr_cursor := 0 |}.

End Strategy.

(** ** frontend.go *)

Module Frontend.

Section WithStrategy.

Context {S : Type} `{Strategy.LoadBalancingStrategy S}.

(** What [RoundRobinStrategy()] returns at construction time. *)
Variable RoundRobinStrategy : S.

(** The [Frontend] struct.  The listener is only touched by [Start]
    and [Stop]; the lock is a field of the machine state of the
    interleaving model below. *)
Record Frontend := mkFrontend {
  appId : string;
  backends : list string;
  port : string;
  strategy : S
}.

Definition NewFrontend (appId port : string) (backends : list string)
  : Frontend :=
  {| appId := appId; backends := backends; port := port;
     strategy := RoundRobinStrategy |}.

Definition set_backends (f : Frontend) (l : list string) : Frontend :=
  {| appId := appId f; backends := l; port := port f;
     strategy := strategy f |}.

Definition set_strategy (f : Frontend) (s : S) : Frontend :=
  {| appId := appId f; backends := backends f; port := port f;
     strategy := s |}.

(** [for idx, node := range f.backends], started at index [idx]. *)
Fixpoint findIdx_from (idx : Z) (l : list string) (backend : string)
  : Z * bool :=
  match l with
  | [] => ((-1)%Z, false)
  | node :: rest =>
      if String.eqb node backend then (idx, true)
      else findIdx_from (idx + 1)%Z rest backend
  end.

Definition findIdxOfBackend (f : Frontend) (backend : string) : Z * bool :=
  findIdx_from 0%Z (backends f) backend.

(** [f.backends[:idx]] followed by [f.backends[idx+1:]]. *)
Definition cut (l : list string) (idx : Z) : list string :=
  take (Z.to_nat idx) l ++ drop (Z.to_nat (idx + 1)) l.

Definition warn_not_part (backend appId : string) : string :=
  "[WARN] Backend " +:+ backend +:+ " is not part of this frontend - "
    +:+ appId +:+ String (ascii_of_nat 10) "".

(** The bodies of the methods, between taking and releasing the lock. *)

Definition Lookup (f : Frontend) : string * Frontend :=
  let '(node, s) := Strategy.Next (strategy f) in
  (node, set_strategy f s).

Definition AddBackend (backend : string) (f : Frontend) : Frontend :=
  let f1 := set_backends f (backends f ++ [backend]) in
  set_strategy f1 (Strategy.AddBackend backend (strategy f1)).

Definition RemoveBackend (backend : string) (f : Frontend)
  : Frontend * list string :=
  let '(idx, found) := findIdxOfBackend f backend in
  let '(f1, logs) :=
    if found then (set_backends f (cut (backends f) idx), [])
    else (f, [warn_not_part backend (appId f)]) in
  (set_strategy f1 (Strategy.RemoveBackend backend (strategy f1)), logs).

Definition LenOfBackends (f : Frontend) : Z :=
  Z.of_nat (length (backends f)).

(** A finite sequence of mutating calls on one Frontend. *)
Inductive call :=
| CallAdd (backend : string)
| CallRemove (backend : string).

Definition do_call (c : call) (f : Frontend) : Frontend :=
  match c with
  | CallAdd b => AddBackend b f
  | CallRemove b => fst (RemoveBackend b f)
  end.

Definition run (cs : list call) (f : Frontend) : Frontend :=
  fold_left (fun f c => do_call c f) cs f.

(** Number of [AddBackend] calls in a sequence. *)
Fixpoint adds (cs : list call) : Z :=
  match cs with
  | [] => 0
  | CallAdd _ :: r => 1 + adds r
  | CallRemove _ :: r => adds r
  end%Z.

(** Number of [RemoveBackend] calls of a sequence whose node is in the
    backend list at the moment of the call, the sequence being run
    from [f]. *)
Fixpoint matched_removes (cs : list call) (f : Frontend) : Z :=
  match cs with
  | [] => 0
  | c :: r =>
      (match c with
       | CallRemove b => if bool_decide (b ∈ backends f) then 1 else 0
       | CallAdd _ => 0
       end + matched_removes r (do_call c f))
  end%Z.

(** *** Interleavings of calls from several tasks

    Each method is the sequence of its atomic actions; [ILock] is
    [f.lock.Lock()] and [IUnlock] the deferred [f.lock.Unlock()]. *)
Inductive instr :=
| ILock
| IUnlock
| IAppend (backend : string)          (* frontend.go:39 *)
| IStrategyAdd (backend : string)     (* frontend.go:40 *)
| IFindCut (backend : string)         (* frontend.go:46-51 *)
| IStrategyRemove (backend : string)  (* frontend.go:52 *)
| IStrategyNext                       (* frontend.go:33 *)
| ILen.                               (* frontend.go:58 *)

Definition Lookup_code : list instr := [IStrategyNext].
Definition AddBackend_code (b : string) : list instr :=
  [ILock; IAppend b; IStrategyAdd b; IUnlock].
Definition RemoveBackend_code (b : string) : list instr :=
  [ILock; IFindCut b; IStrategyRemove b; IUnlock].
Definition LenOfBackends_code : list instr := [ILock; ILen; IUnlock].

(** What a task observes: the node a [Lookup] returned, the length
    [LenOfBackends] returned, a logged line. *)
Inductive obs :=
| ObsNode (task : nat) (node : string)
| ObsLen (task : nat) (n : Z)
| ObsLog (task : nat) (line : string).

Record machine := mkMachine {
  m_frontend : Frontend;
  m_locked : bool;
  m_tasks : list (list instr);
  m_obs : list obs
}.

(** The effect of one atomic action of task [t] on the shared
    Frontend; [None] when the action cannot run now (a [Lock] on a
    held mutex). *)
Definition action (t : nat) (i : instr) (f : Frontend) (locked : bool)
  : option (Frontend * bool * list obs) :=
  match i with
  | ILock => if locked then None else Some (f, true, [])
  | IUnlock => Some (f, false, [])
  | IAppend b => Some (set_backends f (backends f ++ [b]), locked, [])
  | IStrategyAdd b =>
      Some (set_strategy f (Strategy.AddBackend b (strategy f)), locked, [])
  | IFindCut b =>
      let '(idx, found) := findIdxOfBackend f b in
      if found then Some (set_backends f (cut (backends f) idx), locked, [])
      else Some (f, locked, [ObsLog t (warn_not_part b (appId f))])
  | IStrategyRemove b =>
      Some (set_strategy f (Strategy.RemoveBackend b (strategy f)), locked, [])
  | IStrategyNext =>
      let '(node, s) := Strategy.Next (strategy f) in
      Some (set_strategy f s, locked, [ObsNode t node])
  | ILen => Some (f, locked, [ObsLen t (LenOfBackends f)])
  end.

(** Task [t] runs its next atomic action. *)
Definition exec (t : nat) (m : machine) : option machine :=
  match m_tasks m !! t with
  | Some (i :: rest) =>
      match action t i (m_frontend m) (m_locked m) with
      | Some (f, locked, o) =>
          Some {| m_frontend := f; m_locked := locked;
                  m_tasks := <[t := rest]> (m_tasks m);
                  m_obs := m_obs m ++ o |}
      | None => None
      end
  | _ => None
  end.

(** A schedule names the task that moves at each step. *)
Fixpoint exec_schedule (sched : list nat) (m : machine) : option machine :=
  match sched with
  | [] => Some m
  | t :: sched' =>
      match exec t m with
      | Some m' => exec_schedule sched' m'
      | None => None
      end
  end.

End WithStrategy.

Arguments Frontend : clear implicits.
Arguments machine : clear implicits.

End Frontend.

(** ** providers/marathon.go *)

Module Marathon.

Abbreviation Labels := (gmap string string).

(** The parts of the go-marathon data the provider reads. *)
Record IPAddress := { IPAddress_IPAddress : string }.
Record Task := { Task_IPAddresses : list IPAddress; Task_Ports : list Z }.
Record Application :=
  { ID : string; Application_Labels : Labels; Tasks : list Task }.
Record EventStatusUpdate :=
  { AppID : string; TaskStatus : string;
    IPAddresses : list IPAddress; Ports : list Z }.
Record EventAPIRequest := { AppDefinition : Application }.

(** [event.ID] together with the payload [event.Event] of that kind. *)
Inductive Event :=
| EventIDStatusUpdate (update : EventStatusUpdate)
| EventIDAPIRequest (app : EventAPIRequest)
| EventIDFailedHealthCheck
| EventIDAppTerminated.

(** The client's answers: [Applications] (with embedded tasks) and
    [Application]; [None] is a non-nil [err]. *)
Record Client := {
  client_Applications : option (list Application);
  client_Application : string -> option Application
}.

(** [types.BackendInfo] and [types.AppInfo]. *)
Record BackendInfo := { AppId : string; Node : string }.
Record AppInfo := { AppInfo_AppId : string; AppInfo_Labels : Labels }.

(** A value sent on [addBackend], [removeBackend], [appUpdate] or
    [dropApp]. *)
Inductive command :=
| AddBackend (b : BackendInfo)
| RemoveBackend (b : BackendInfo)
| AppUpdated (a : AppInfo)
| AppDropped (a : AppInfo).

Inductive panic :=
| IndexOutOfRange (index : Z) (len : Z).

Inductive result (A : Type) :=
| Ok (a : A)
| Panic (p : panic).
Arguments Ok {A} a.
Arguments Panic {A} p.

(** [l[i]] on a slice. *)
Definition index {A : Type} (l : list A) (i : Z) : result A :=
  match (if (0 <=? i)%Z then l !! Z.to_nat i else None) with
  | Some x => Ok x
  | None => Panic (IndexOutOfRange i (Z.of_nat (length l)))
  end.

(** [fmt.Sprintf("%d", n)]. *)
Definition Sprintf_d (n : Z) : string := pretty n.

(** The provider's task: [m.apps] is its state, sends are collected in
    order, a panic ends it. *)
Definition M (A : Type) : Type :=
  gmap string Labels -> list command * result (A * gmap string Labels).

Definition ret {A : Type} (a : A) : M A := fun apps => ([], Ok (a, apps)).

Definition bind {A B : Type} (m : M A) (k : A -> M B) : M B :=
  fun apps =>
    match m apps with
    | (out, Ok (a, apps')) =>
        let '(out', r) := k a apps' in ((out ++ out')%list, r)
    | (out, Panic p) => (out, Panic p)
    end.

Definition send (c : command) : M unit := fun apps => ([c], Ok (tt, apps)).

Notation "x <- m ;; k" := (bind m (fun x => k))
  (at level 100, m at next level, right associativity).
Notation "m ;;; k" := (bind m (fun _ => k))
  (at level 100, right associativity).

(** [for _, x := range l { body x }]. *)
Fixpoint for_range {A : Type} (l : list A) (body : A -> M unit) : M unit :=
  match l with
  | [] => ret tt
  | x :: r => body x ;;; for_range r body
  end.

Section Provider.

(** [types.TLB_ENABLED], [types.TLB_PORTINDEX] and the two helpers of
    golang-utils/maps are declared outside these two source files. *)
Variables TLB_ENABLED TLB_PORTINDEX : string.
Variable GetBoolean : Labels -> string -> bool -> bool.
Variable GetInt : Labels -> string -> Z -> Z.

Definition containsApp (appId : string) : M bool :=
  fun apps => ([], Ok (bool_decide (is_Some (apps !! appId)), apps)).

Definition appApp (appId : string) (labels : Labels) : M unit :=
  fun apps => ([], Ok (tt, <[appId := labels]> apps)).

(** [m.apps[appId]] is the nil map when the key is absent. *)
Definition createBackendInfo (apps : gmap string Labels) (appId : string)
    (ipAddresses : list IPAddress) (ports : list Z) : result BackendInfo :=
  let appLabels := default ∅ (apps !! appId) in
  let portIndex := GetInt appLabels TLB_PORTINDEX 0 in
  match index ipAddresses portIndex with
  | Panic p => Panic p
  | Ok ip =>
      match index ports portIndex with
      | Panic p => Panic p
      | Ok port =>
          Ok {| AppId := appId;
                Node := IPAddress_IPAddress ip +:+ ":" +:+ Sprintf_d port |}
      end
  end.

Definition createBackendInfoM (appId : string)
    (ipAddresses : list IPAddress) (ports : list Z) : M BackendInfo :=
  fun apps =>
    match createBackendInfo apps appId ipAddresses ports with
    | Ok b => ([], Ok (b, apps))
    | Panic p => ([], Panic p)
    end.

(** The body of [for _, task := range app.Tasks]. *)
Definition scan_task (app : Application) (task : Task) : M unit :=
  backendInfo <- createBackendInfoM (ID app)
                   (Task_IPAddresses task) (Task_Ports task) ;;
  send (AddBackend backendInfo).

(** The body of [for _, app := range apps.Apps]. *)
Definition scan_app (app : Application) : M unit :=
  if GetBoolean (Application_Labels app) TLB_ENABLED false then
    send (AppUpdated {| AppInfo_AppId := ID app;
                        AppInfo_Labels := Application_Labels app |}) ;;;
    appApp (ID app) (Application_Labels app) ;;;
    for_range (Tasks app) (scan_task app)
  else ret tt.

Definition scanAllApps (client : Client) : M unit :=
  match client_Applications client with
  | None => ret tt
  | Some apps => for_range apps scan_app
  end.

(** The body of [case event := <-eventsChannel]. *)
Definition on_event (client : Client) (event : Event) : M unit :=
  match event with
  | EventIDStatusUpdate update =>
      knownApp <- containsApp (AppID update) ;;
      if knownApp && String.eqb (TaskStatus update) "TASK_FAILED" then
        b <- createBackendInfoM (AppID update)
               (IPAddresses update) (Ports update) ;;
        send (RemoveBackend b)
      else if knownApp && String.eqb (TaskStatus update) "TASK_RUNNING" then
        b <- createBackendInfoM (AppID update)
               (IPAddresses update) (Ports update) ;;
        send (AddBackend b)
      else ret tt
  | EventIDAPIRequest app =>
      match client_Application client (ID (AppDefinition app)) with
      | None =>
          knownApp <- containsApp (ID (AppDefinition app)) ;;
          if knownApp then
            send (AppDropped
                    {| AppInfo_AppId := ID (AppDefinition app);
                       AppInfo_Labels :=
                         Application_Labels (AppDefinition app) |})
          else ret tt
      | Some _ =>
          send (AppUpdated
                  {| AppInfo_AppId := ID (AppDefinition app);
                     AppInfo_Labels :=
                       Application_Labels (AppDefinition app) |})
      end
  | EventIDFailedHealthCheck | EventIDAppTerminated => ret tt
  end.

(** What one [select] of the loop receives: an event (with the
    client's answers at that moment) or the stop signal. *)
Inductive received :=
| RecvEvent (client : Client) (event : Event)
| RecvStop.

(** [for running { select ... }] over the values received. *)
Fixpoint loop (inputs : list received) : M unit :=
  match inputs with
  | [] => ret tt
  | RecvStop :: _ => ret tt
  | RecvEvent client event :: rest => on_event client event ;;; loop rest
  end.

(** [start], past client creation and subscription. *)
Definition start (client : Client) (inputs : list received) : M unit :=
  scanAllApps client ;;; loop inputs.

(** *** What the spec describes, to compare the code with *)

(** The address of a task: [ip:port] at the index the labels select
    (default 0), when both reported arrays have that index. *)
Definition node_at (labels : Labels) (ipAddresses : list IPAddress)
    (ports : list Z) : option string :=
  let portIndex := GetInt labels TLB_PORTINDEX 0 in
  if (0 <=? portIndex)%Z then
    match ipAddresses !! Z.to_nat portIndex, ports !! Z.to_nat portIndex with
    | Some ip, Some port =>
        Some (IPAddress_IPAddress ip +:+ ":" +:+ Sprintf_d port)
    | _, _ => None
    end
  else None.

(** The commands of one listed application: nothing without the
    enable label, else one [AppUpdated] and then one [AddBackend] per
    task. *)
Definition app_commands (app : Application) : option (list command) :=
  if GetBoolean (Application_Labels app) TLB_ENABLED false then
    match mapM (fun task => node_at (Application_Labels app)
                              (Task_IPAddresses task) (Task_Ports task))
               (Tasks app) with
    | Some nodes =>
        Some (AppUpdated {| AppInfo_AppId := ID app;
                            AppInfo_Labels := Application_Labels app |}
              :: map (fun n => AddBackend {| AppId := ID app; Node := n |})
                   nodes)
    | None => None
    end
  else Some [].

(** The known-apps map after the listed applications are recorded. *)
Definition scan_known (listed : list Application)
    (apps : gmap string Labels) : gmap string Labels :=
  foldl (fun m app =>
           if GetBoolean (Application_Labels app) TLB_ENABLED false
           then <[ID app := Application_Labels app]> m else m)
        apps listed.

End Provider.

End Marathon.

(** ** Stand-ins for the declarations outside the two source files

    Concrete label names and label readers, used to run the provider on
    concrete inputs.  The theorems below hold for every choice of them. *)

Module Ref.

Import Marathon.

Definition TLB_ENABLED : string := "tlb.enabled".
Definition TLB_PORTINDEX : string := "tlb.portIndex".

(** [strconv.ParseBool]. *)
Definition ParseBool (s : string) : option bool :=
  if bool_decide (s ∈ ["1"; "t"; "T"; "TRUE"; "true"; "True"]) then Some true
  else if bool_decide (s ∈ ["0"; "f"; "F"; "FALSE"; "false"; "False"])
       then Some false
       else None.

Fixpoint digits (s : string) (acc : Z) : option Z :=
  match s with
  | EmptyString => Some acc
  | String c r =>
      let n := Z.of_nat (nat_of_ascii c) in
      if ((48 <=? n) && (n <=? 57))%Z then digits r (10 * acc + (n - 48))%Z
      else None
  end.

(** [strconv.Atoi] on values that fit an [int]. *)
Definition Atoi (s : string) : option Z :=
  match s with
  | EmptyString => None
  | String c r =>
      if Ascii.eqb c "-"%char then
        (if String.eqb r "" then None else Z.opp <$> digits r 0)
      else if Ascii.eqb c "+"%char then
        (if String.eqb r "" then None else digits r 0)
      else digits s 0
  end.

Definition GetBoolean (kv : Labels) (key : string) (defaultValue : bool)
  : bool :=
  match kv !! key with
  | Some value => default defaultValue (ParseBool value)
  | None => defaultValue
  end.

Definition GetInt (kv : Labels) (key : string) (defaultValue : Z) : Z :=
  match kv !! key with
  | Some value => default defaultValue (Atoi value)
  | None => defaultValue
  end.

Definition createBackendInfo := Marathon.createBackendInfo TLB_PORTINDEX GetInt.
Definition scanAllApps := Marathon.scanAllApps TLB_ENABLED TLB_PORTINDEX GetBoolean GetInt.
Definition on_event := Marathon.on_event TLB_PORTINDEX GetInt.
Definition loop := Marathon.loop TLB_PORTINDEX GetInt.
Definition start := Marathon.start TLB_ENABLED TLB_PORTINDEX GetBoolean GetInt.

End Ref.

(** ** Concrete runs *)

Module Scenario.

Import Frontend Marathon.

Definition fresh (backends : list string) : Frontend Strategy.RoundRobin :=
  NewFrontend Strategy.RoundRobinStrategy "app1" "8080" backends.

(** Task 0 calls [AddBackend], task 1 calls [Lookup], task 2 calls
    [LenOfBackends], on one Frontend. *)
Definition two_callers : machine Strategy.RoundRobin :=
  {| m_frontend := fresh [];
     m_locked := false;
     m_tasks := [AddBackend_code "10.0.0.1:9000"; Lookup_code;
                 LenOfBackends_code];
     m_obs := [] |}.

Definition ip (s : string) : IPAddress := {| IPAddress_IPAddress := s |}.

Definition app1_labels : Labels :=
  {[ Ref.TLB_ENABLED := "true"; Ref.TLB_PORTINDEX := "0" ]}.

Definition app1 : Application :=
  {| ID := "app1"; Application_Labels := app1_labels;
     Tasks := [ {| Task_IPAddresses := [ip "10.0.0.1"];
                   Task_Ports := [9000%Z] |} ] |}.

Definition app1_info : AppInfo :=
  {| AppInfo_AppId := "app1"; AppInfo_Labels := app1_labels |}.

(** An orchestrator that lists [apps] and finds exactly the
    applications of [present]. *)
Definition orchestrator (apps present : list Application) : Client :=
  {| client_Applications := Some apps;
     client_Application := fun id =>
       List.find (fun a => String.eqb (ID a) id) present |}.

Definition status (appId st : string) (ips : list IPAddress)
    (ports : list Z) : Event :=
  EventIDStatusUpdate
    {| AppID := appId; TaskStatus := st; IPAddresses := ips; Ports := ports |}.

Definition api_request (app : Application) : Event :=
  EventIDAPIRequest {| AppDefinition := app |}.

End Scenario.

(** ** More concrete inputs *)

Module Listing.

Import Marathon Scenario.

Definition task1 : Task :=
  {| Task_IPAddresses := [ip "10.0.0.1"]; Task_Ports := [9000%Z] |}.

(** A task that reports an address but no port. *)
Definition task_without_port : Task :=
  {| Task_IPAddresses := [ip "10.0.0.2"]; Task_Ports := [] |}.

(** [app1] listed a second time, with other labels and no task. *)
Definition app1_relabelled : Application :=
  {| ID := "app1";
     Application_Labels := {[ Ref.TLB_ENABLED := "true" ]};
     Tasks := [] |}.

Definition app2_labels : Labels := {[ Ref.TLB_ENABLED := "true" ]}.

Definition app2 : Application :=
  {| ID := "app2"; Application_Labels := app2_labels;
     Tasks := [task1; task_without_port; task1] |}.


End Listing.

(** ** The lock discipline of the Frontend's methods *)

Module Lock.

Import Frontend.

(** A call of one of the four methods. *)
Inductive method :=
| MLookup
| MAddBackend (backend : string)
| MRemoveBackend (backend : string)
| MLenOfBackends.

Definition code_of (m : method) : list instr :=
  match m with
  | MLookup => Lookup_code
  | MAddBackend b => AddBackend_code b
  | MRemoveBackend b => RemoveBackend_code b
  | MLenOfBackends => LenOfBackends_code
  end.

(** A task that makes the calls [ms] one after the other. *)
Definition task_code (ms : list method) : list instr :=
  concat (map code_of ms).

(** The task is between a [Lock] and its [Unlock]: the next lock
    operation it will do is the [Unlock]. *)
Fixpoint critical (c : list instr) : bool :=
  match c with
  | [] => false
  | ILock :: _ => false
  | IUnlock :: _ => true
  | _ :: r => critical r
  end.

(** The lock operations that remain alternate, starting from [held], and
    end released. *)
Fixpoint bracketed (held : bool) (c : list instr) : bool :=
  match c with
  | [] => negb held
  | ILock :: r => negb held && bracketed true r
  | IUnlock :: r => held && bracketed false r
  | _ :: r => bracketed held r
  end.

(** How many tasks are between a [Lock] and its [Unlock]. *)
Fixpoint holders (tasks : list (list instr)) : nat :=
  match tasks with
  | [] => 0
  | c :: r => (if critical c then 1 else 0) + holders r
  end.

(** The lock is held exactly when one task is between a [Lock] and its
    [Unlock], and what remains of every task is well bracketed. *)
Definition lock_inv {S : Type} (m : machine S) : Prop :=
  Forall (fun c => bracketed (critical c) c = true) (m_tasks m)
  /\ holders (m_tasks m) = (if m_locked m then 1 else 0)%nat.

(** The machine on which each task is about to make its calls. *)
Definition initial {S : Type} (f : Frontend S) (calls : list (list method))
  : machine S :=
  {| m_frontend := f; m_locked := false;
     m_tasks := map task_code calls; m_obs := [] |}.

End Lock.

(** ** A strategy that records the calls it receives *)

Module Recorder.

Import Frontend Lock.

Inductive strategy_call :=
| SNext
| SAdd (backend : string)
| SRemove (backend : string).

(** The strategy object keeps the calls made to it, oldest first, and
    always answers [Next] with the empty node. *)
#[global] Instance recorder : Strategy.LoadBalancingStrategy (list strategy_call) :=
  {| Strategy.Next := fun s => ("", s ++ [SNext]);
     Strategy.AddBackend := fun b s => s ++ [SAdd b];
     Strategy.RemoveBackend := fun b s => s ++ [SRemove b] |}.

(** What the Frontend does to its backend list in the method that makes
    the call: [AddBackend] appends, [RemoveBackend] cuts out the first
    match, [Lookup] leaves the list alone. *)
Definition replay1 (l : list string) (c : strategy_call) : list string :=
  match c with
  | SNext => l
  | SAdd b => l ++ [b]
  | SRemove b =>
      let '(idx, found) := findIdx_from 0%Z l b in
      if found then cut l idx else l
  end.

Definition replay (calls : list strategy_call) (l : list string)
  : list string :=
  fold_left replay1 calls l.

(** The strategy call a task owes: it has changed the list and its next
    step tells the strategy. *)
Definition pending (c : list instr) : list strategy_call :=
  match c with
  | IStrategyAdd b :: _ => [SAdd b]
  | IStrategyRemove b :: _ => [SRemove b]
  | _ => []
  end.

(** What is left of a task that is between two calls. *)
Inductive outside : list instr -> Prop :=
| outside_nil : outside []
| outside_Lookup c : outside c -> outside (IStrategyNext :: c)
| outside_AddBackend b c :
    outside c -> outside (ILock :: IAppend b :: IStrategyAdd b :: IUnlock :: c)
| outside_RemoveBackend b c :
    outside c ->
    outside (ILock :: IFindCut b :: IStrategyRemove b :: IUnlock :: c)
| outside_LenOfBackends c :
    outside c -> outside (ILock :: ILen :: IUnlock :: c).

(** What is left of a task, between two calls or inside one. *)
Inductive shaped : list instr -> Prop :=
| shaped_outside c : outside c -> shaped c
| shaped_IAppend b c :
    outside c -> shaped (IAppend b :: IStrategyAdd b :: IUnlock :: c)
| shaped_IStrategyAdd b c :
    outside c -> shaped (IStrategyAdd b :: IUnlock :: c)
| shaped_IFindCut b c :
    outside c -> shaped (IFindCut b :: IStrategyRemove b :: IUnlock :: c)
| shaped_IStrategyRemove b c :
    outside c -> shaped (IStrategyRemove b :: IUnlock :: c)
| shaped_ILen c : outside c -> shaped (ILen :: IUnlock :: c)
| shaped_IUnlock c : outside c -> shaped (IUnlock :: c).

(** The list is the initial list [l0] with the calls replayed that the
    strategy has received or is owed. *)
Definition sync_inv (l0 : list string) (m : machine (list strategy_call))
  : Prop :=
  lock_inv m
  /\ Forall shaped (m_tasks m)
  /\ backends (m_frontend m)
     = replay (strategy (m_frontend m) ++ concat (map pending (m_tasks m))) l0.

End Recorder.

(** ** [Start]: the accept loop of a Frontend *)

Module Listener.

Import Frontend.

(** What [l.Accept()] returns. *)
Inductive accepted :=
| Conn (conn : nat)
| AcceptError (err : string).

(** The arguments of one [go NewRequest(conn, f.Lookup(), f.appId)]. *)
Record request :=
  { req_conn : nat; req_backend : string; req_appId : string }.

(** How the run of [Start] stands when the given accepts are used up:
    ended by [log.Fatal], or waiting in [Accept]. *)
Inductive ending :=
| Fatal (err : string)
| Accepting.

Section WithStrategy.

Context {S : Type} `{Strategy.LoadBalancingStrategy S}.

Record served := mkServed {
  sv_frontend : Frontend S;
  sv_listening : bool;          (* [f.listener] is not nil *)
  sv_logs : list string;
  sv_counter : Z;               (* increments of frontend-requests *)
  sv_requests : list request;
  sv_end : ending
}.

(** [for { conn, err := l.Accept() ... }]. *)
Fixpoint accept_loop (accepts : list accepted) (f : Frontend S)
    (counter : Z) (requests : list request)
  : Frontend S * Z * list request * ending :=
  match accepts with
  | [] => (f, counter, requests, Accepting)
  | AcceptError err :: _ => (f, counter, requests, Fatal err)
  | Conn conn :: rest =>
      let '(backend, f') := Lookup f in
      accept_loop rest f' (counter + 1)%Z
        (requests ++ [{| req_conn := conn; req_backend := backend;
                         req_appId := appId f |}])
  end.

Definition starting_line (f : Frontend S) : string :=
  "Starting Frontend for " +:+ appId f +:+ " via " +:+ port f
    +:+ String (ascii_of_nat 10) "".

Definition started_line (f : Frontend S) : string :=
  "Started Frontend for " +:+ appId f +:+ " at " +:+ port f
    +:+ String (ascii_of_nat 10) "".

(** [Start]; [listen] is the error of [net.Listen], if any. *)
Definition Start (listen : option string) (accepts : list accepted)
    (f : Frontend S) : served :=
  let logs := [starting_line f; started_line f] in
  match listen with
  | Some err =>
      {| sv_frontend := f; sv_listening := false; sv_logs := logs;
         sv_counter := 0; sv_requests := []; sv_end := Fatal err |}
  | None =>
      let '(f', counter, requests, e) := accept_loop accepts f 0%Z [] in
      {| sv_frontend := f'; sv_listening := true; sv_logs := logs;
         sv_counter := counter; sv_requests := requests; sv_end := e |}
  end.

(** The nodes of [n] successive calls of [Lookup]. *)
Fixpoint lookups (n : nat) (f : Frontend S) : list string * Frontend S :=
  match n with
  | O => ([], f)
  | Datatypes.S n' =>
      let '(backend, f') := Lookup f in
      let '(l, f'') := lookups n' f' in
      (backend :: l, f'')
  end.

End WithStrategy.

Arguments served : clear implicits.

End Listener.

(** ** [NewMarathonProvider] and [Provide] *)

Module Provider.

Import Marathon.

(** The [MarathonProvider] struct; its channels are the [command]s sent,
    its stop channel the [RecvStop] among the values received. *)
Record MarathonProvider :=
  { marathonHost : string; apps : gmap string Labels }.

Definition NewMarathonProvider (marathonHost : string) : MarathonProvider :=
  {| marathonHost := marathonHost; apps := ∅ |}.

(** The app an [AddBackend], [RemoveBackend] or [AppDropped] is about. *)
Definition command_app (c : command) : option string :=
  match c with
  | AddBackend b | RemoveBackend b => Some (AppId b)
  | AppDropped a => Some (AppInfo_AppId a)
  | AppUpdated _ => None
  end.


(** The events the loop has no case for. *)
Definition no_case (r : received) : bool :=
  match r with
  | RecvEvent _ EventIDFailedHealthCheck
  | RecvEvent _ EventIDAppTerminated => true
  | _ => false
  end.

(** What the task sends satisfies [P] (also when it panics), and when it
    returns from a map satisfying [J] the result satisfies [Q]. *)
Definition triple {A : Type} (J : gmap string Labels -> Prop) (m : M A)
    (P : command -> Prop) (Q : A -> gmap string Labels -> Prop) : Prop :=
  forall apps, J apps ->
    Forall P (fst (m apps))
    /\ match snd (m apps) with
       | Ok (a, apps') => Q a apps'
       | Panic _ => True
       end.

Section Provider.

Variables TLB_ENABLED TLB_PORTINDEX : string.
Variable GetBoolean : Labels -> string -> bool -> bool.
Variable GetInt : Labels -> string -> Z -> Z.

(** [Provide] stores the channels, starts [m.start()] as a task of its
    own and returns a nil error. *)
Definition Provide (m : MarathonProvider) (client : Client)
    (inputs : list received)
  : (list command * result (unit * gmap string Labels)) * option string :=
  (start TLB_ENABLED TLB_PORTINDEX GetBoolean GetInt client inputs (apps m),
   None).

(** The application [id] is listed by the orchestrator with the enable
    label. *)
Definition enabled_listed (client : Client) (id : string) : Prop :=
  exists listed app,
    client_Applications client = Some listed
    /\ app ∈ listed /\ ID app = id
    /\ GetBoolean (Application_Labels app) TLB_ENABLED false = true.

(** Every known app is listed with the enable label. *)
Definition known_ok (client : Client) (apps : gmap string Labels) : Prop :=
  forall id, is_Some (apps !! id) -> enabled_listed client id.

(** A command about an app is about one listed with the enable label. *)
Definition cmd_ok (client : Client) (c : command) : Prop :=
  match command_app c with
  | Some id => enabled_listed client id
  | None => True
  end.

(** The last listed application with id [id] that has the enable label. *)
Definition last_enabled (listed : list Application) (id : string)
  : option Application :=
  List.find (fun app =>
               GetBoolean (Application_Labels app) TLB_ENABLED false
               && String.eqb (ID app) id)
            (rev listed).

End Provider.

End Provider.

(** * Properties of the Frontend *)

Module FrontendFacts.

Import Frontend.

Section WithStrategy.

Context {S : Type} `{Strategy.LoadBalancingStrategy S}.
Variable RoundRobinStrategy : S.

Implicit Types (f : Frontend S) (l : list string) (b : string).

Lemma findIdx_from_split idx l1 l2 b :
  b ∉ l1 ->
  findIdx_from idx (l1 ++ b :: l2) b = ((idx + Z.of_nat (length l1))%Z, true).
Proof.
  revert idx. induction l1 as [|x l1 IH]; intros idx Hnin; simpl.
  - rewrite String.eqb_refl. f_equal. lia.
  - apply not_elem_of_cons in Hnin as [Hne Hnin].
    destruct (String.eqb_spec x b) as [->|_]; [done|].
    rewrite IH by done. f_equal. lia.
Qed.

Lemma findIdx_from_absent idx l b :
  b ∉ l -> findIdx_from idx l b = ((-1)%Z, false).
Proof.
  revert idx. induction l as [|x l IH]; intros idx Hnin; simpl; [done|].
  apply not_elem_of_cons in Hnin as [Hne Hnin].
  destruct (String.eqb_spec x b) as [->|_]; [done|]. by apply IH.
Qed.

Lemma cut_split l1 b l2 :
  cut (l1 ++ b :: l2) (Z.of_nat (length l1)) = l1 ++ l2.
Proof.
  unfold cut.
  replace (Z.to_nat (Z.of_nat (length l1) + 1)) with (Datatypes.S (length l1)) by lia.
  rewrite Nat2Z.id. f_equal.
  - apply take_app_length.
  - rewrite cons_middle, app_assoc. apply drop_app_length'.
    rewrite length_app. simpl. lia.
Qed.

Lemma RemoveBackend_split f b l1 l2 :
  backends f = l1 ++ b :: l2 -> b ∉ l1 ->
  RemoveBackend b f =
    (set_strategy (set_backends f (l1 ++ l2))
       (Strategy.RemoveBackend b (strategy f)), []).
Proof.
  intros Hl Hnin. unfold RemoveBackend, findIdxOfBackend.
  rewrite Hl, findIdx_from_split by done. simpl.
  by rewrite cut_split.
Qed.

Lemma RemoveBackend_not_found f b :
  b ∉ backends f ->
  RemoveBackend b f =
    (set_strategy f (Strategy.RemoveBackend b (strategy f)),
     [warn_not_part b (appId f)]).
Proof.
  intros Hnin. unfold RemoveBackend, findIdxOfBackend.
  by rewrite findIdx_from_absent.
Qed.

Lemma first_occurrence l b :
  b ∈ l -> exists l1 l2, l = l1 ++ b :: l2 /\ b ∉ l1.
Proof. intros Hin. by apply list_elem_of_split_l in Hin. Qed.

Lemma LenOfBackends_do_call c f :
  LenOfBackends (do_call c f) =
    (LenOfBackends f + adds [c] - matched_removes [c] f)%Z.
Proof.
  unfold LenOfBackends. destruct c as [b|b]; simpl.
  - rewrite length_app. simpl. lia.
  - case_bool_decide as Hin.
    + destruct (first_occurrence _ _ Hin) as (l1 & l2 & Hl & Hnin).
      rewrite (RemoveBackend_split f b l1 l2) by done. simpl.
      rewrite Hl, !length_app. simpl. lia.
    + rewrite RemoveBackend_not_found by done. simpl. lia.
Qed.

Lemma LenOfBackends_run cs f :
  LenOfBackends (run cs f) =
    (LenOfBackends f + adds cs - matched_removes cs f)%Z.
Proof.
  revert f. induction cs as [|c cs IH]; intros f.
  - simpl. lia.
  - change (run (c :: cs) f) with (run cs (do_call c f)).
    rewrite IH, LenOfBackends_do_call.
    destruct c; simpl; lia.
Qed.

(** Run alone, the atomic steps of a method are the method. *)

Lemma AddBackend_code_runs f b :
  exec_schedule [0; 0; 0; 0]%nat
    {| m_frontend := f; m_locked := false;
       m_tasks := [AddBackend_code b]; m_obs := [] |}
  = Some {| m_frontend := AddBackend b f; m_locked := false;
            m_tasks := [[]]; m_obs := [] |}.
Proof. reflexivity. Qed.

Lemma RemoveBackend_code_runs f b :
  exec_schedule [0; 0; 0; 0]%nat
    {| m_frontend := f; m_locked := false;
       m_tasks := [RemoveBackend_code b]; m_obs := [] |}
  = Some {| m_frontend := fst (RemoveBackend b f); m_locked := false;
            m_tasks := [[]];
            m_obs := map (ObsLog 0) (snd (RemoveBackend b f)) |}.
Proof.
  unfold RemoveBackend. cbn.
  destruct (findIdxOfBackend f b) as [idx [|]]; reflexivity.
Qed.

Lemma Lookup_code_runs f locked :
  exec 0 {| m_frontend := f; m_locked := locked;
            m_tasks := [Lookup_code]; m_obs := [] |}
  = Some {| m_frontend := snd (Lookup f); m_locked := locked;
            m_tasks := [[]]; m_obs := [ObsNode 0 (fst (Lookup f))] |}.
Proof.
  unfold Lookup. cbn. destruct (Strategy.Next (strategy f)). reflexivity.
Qed.

(** C7. [RemoveBackend] with a node that is not in the backend list
    leaves the list (and the id and port) unchanged, logs exactly the
    warning line, and returns normally; the strategy is still told to
    remove the node. *)
Theorem RemoveBackend_absent_only_warns f b :
  b ∉ backends f ->
  backends (fst (RemoveBackend b f)) = backends f
  /\ appId (fst (RemoveBackend b f)) = appId f
  /\ port (fst (RemoveBackend b f)) = port f
  /\ strategy (fst (RemoveBackend b f))
     = Strategy.RemoveBackend b (strategy f)
  /\ snd (RemoveBackend b f) = [warn_not_part b (appId f)].
Proof.
  intros Hnin. rewrite RemoveBackend_not_found by done. by simpl.
Qed.

(** C8. After any finite sequence of [AddBackend] and [RemoveBackend]
    calls, [LenOfBackends] is the length at the start of the sequence
    plus the number of adds minus the number of removes that matched
    a present backend; for a Frontend created without backends it is
    adds minus matched removes; it is never negative. *)
Theorem LenOfBackends_adds_minus_matched cs f id prt :
  LenOfBackends (run cs f)
    = (LenOfBackends f + adds cs - matched_removes cs f)%Z
  /\ LenOfBackends (run cs (NewFrontend RoundRobinStrategy id prt []))
     = (adds cs
        - matched_removes cs (NewFrontend RoundRobinStrategy id prt []))%Z
  /\ (0 <= LenOfBackends (run cs f))%Z.
Proof.
  split; [apply LenOfBackends_run|]. split.
  - rewrite LenOfBackends_run. unfold LenOfBackends at 1. simpl. lia.
  - unfold LenOfBackends. lia.
Qed.

(** C10. [AddBackend] appends the node whether or not it is already in
    the list; [RemoveBackend] of a node that occurs in the list cuts
    out its first occurrence only: what was before it and everything
    after it, later duplicates included, stays in place. *)
Theorem RemoveBackend_cuts_first_occurrence f b :
  backends (AddBackend b f) = backends f ++ [b]
  /\ forall l1 l2,
       backends f = l1 ++ b :: l2 -> b ∉ l1 ->
       backends (fst (RemoveBackend b f)) = l1 ++ l2.
Proof.
  split; [done|]. intros l1 l2 Hl Hnin.
  by rewrite (RemoveBackend_split f b l1 l2).
Qed.

End WithStrategy.

Import Scenario.

Lemma RemoveBackend_absent_only_warns_witness :
  ("10.0.0.2:9000" ∉ backends (fresh ["10.0.0.1:9000"]))
  /\ backends (fst (RemoveBackend "10.0.0.2:9000" (fresh ["10.0.0.1:9000"])))
     = ["10.0.0.1:9000"]
  /\ snd (RemoveBackend "10.0.0.2:9000" (fresh ["10.0.0.1:9000"]))
     = [warn_not_part "10.0.0.2:9000" "app1"].
Proof.
  assert (Hnin : "10.0.0.2:9000" ∉ backends (fresh ["10.0.0.1:9000"])).
  { simpl. intros Hin. apply list_elem_of_singleton in Hin. discriminate. }
  split; [exact Hnin|].
  pose proof (RemoveBackend_absent_only_warns
                (fresh ["10.0.0.1:9000"]) "10.0.0.2:9000" Hnin) as Hw.
  split; [exact (proj1 Hw) | exact (proj2 (proj2 (proj2 (proj2 Hw))))].
Defined.

Lemma RemoveBackend_cuts_first_occurrence_witness :
  backends (fresh ["a"; "b"; "a"]) = [] ++ "a" :: ["b"; "a"]
  /\ ("a" ∉ ([] : list string))
  /\ backends (fst (RemoveBackend "a" (fresh ["a"; "b"; "a"]))) = ["b"; "a"].
Proof.
  split; [reflexivity|]. split; [apply not_elem_of_nil|].
  apply (proj2 (RemoveBackend_cuts_first_occurrence
                  (fresh ["a"; "b"; "a"]) "a") [] ["b"; "a"]).
  - reflexivity.
  - apply not_elem_of_nil.
Defined.

(** C2. [Lookup] does not take the Frontend's lock.  Task 0 is inside
    [AddBackend]: it holds the lock and has appended the node to the
    backend list but not yet told the strategy.  There task 1's
    [Lookup] runs, with the lock still held by task 0, and returns the
    no-backend sentinel from a strategy that lags the list, while task
    2's [LenOfBackends] is held back by the lock. *)
Theorem Lookup_runs_while_lock_is_held :
  exists m1 m2,
    exec_schedule [0; 0]%nat two_callers = Some m1
    /\ m_locked m1 = true
    /\ backends (m_frontend m1) = ["10.0.0.1:9000"]
    /\ Strategy.rr_backends (strategy (m_frontend m1)) = []
    /\ exec 2 m1 = None
    /\ exec 1 m1 = Some m2
    /\ m_locked m2 = true
    /\ m_obs m2 = [ObsNode 1 ""].
Proof. do 2 eexists. repeat split; reflexivity. Qed.

End FrontendFacts.

(** * Properties of the discovery event processor *)

Module MarathonFacts.

Import Marathon.

Section Provider.

Variables TLB_ENABLED TLB_PORTINDEX : string.
Variable GetBoolean : Labels -> string -> bool -> bool.
Variable GetInt : Labels -> string -> Z -> Z.

Local Abbreviation createBackendInfo :=
  (Marathon.createBackendInfo TLB_PORTINDEX GetInt).
Local Abbreviation createBackendInfoM :=
  (Marathon.createBackendInfoM TLB_PORTINDEX GetInt).
Local Abbreviation on_event := (Marathon.on_event TLB_PORTINDEX GetInt).
Local Abbreviation loop := (Marathon.loop TLB_PORTINDEX GetInt).
Local Abbreviation node_at := (Marathon.node_at TLB_PORTINDEX GetInt).
Local Abbreviation scan_task := (Marathon.scan_task TLB_PORTINDEX GetInt).
Local Abbreviation scan_app :=
  (Marathon.scan_app TLB_ENABLED TLB_PORTINDEX GetBoolean GetInt).
Local Abbreviation scanAllApps :=
  (Marathon.scanAllApps TLB_ENABLED TLB_PORTINDEX GetBoolean GetInt).
Local Abbreviation app_commands :=
  (Marathon.app_commands TLB_ENABLED TLB_PORTINDEX GetBoolean GetInt).
Local Abbreviation scan_known := (Marathon.scan_known TLB_ENABLED GetBoolean).

Implicit Types (apps : gmap string Labels) (labels : Labels).

(** *** Slice indexing *)

Lemma index_in_range {A : Type} (l : list A) i x :
  (0 <= i)%Z -> l !! Z.to_nat i = Some x -> index l i = Ok x.
Proof.
  intros Hi Hx. unfold index.
  destruct (Z.leb_spec 0 i); [|lia]. by rewrite Hx.
Qed.

Lemma index_out_of_range {A : Type} (l : list A) i :
  (i < 0 \/ Z.of_nat (length l) <= i)%Z ->
  index l i = Panic (IndexOutOfRange i (Z.of_nat (length l))).
Proof.
  intros Hi. unfold index.
  destruct (Z.leb_spec 0 i); [|done].
  rewrite (lookup_ge_None_2 l (Z.to_nat i)); [done|lia].
Qed.

Lemma index_cases {A : Type} (l : list A) i :
  (exists x, (0 <= i)%Z /\ l !! Z.to_nat i = Some x /\ index l i = Ok x)
  \/ ((i < 0 \/ Z.of_nat (length l) <= i)%Z
      /\ index l i = Panic (IndexOutOfRange i (Z.of_nat (length l)))).
Proof.
  destruct (Z.leb_spec 0 i) as [Hi|Hi].
  - destruct (l !! Z.to_nat i) as [x|] eqn:Hx.
    + left. exists x. eauto using index_in_range.
    + right. apply lookup_ge_None_1 in Hx.
      assert (i < 0 \/ Z.of_nat (length l) <= i)%Z as Hr by lia.
      eauto using index_out_of_range.
  - right. assert (i < 0 \/ Z.of_nat (length l) <= i)%Z as Hr by lia.
    eauto using index_out_of_range.
Qed.

(** *** Backend-address construction *)

Lemma createBackendInfo_in_range apps appId ips ports ip port :
  let portIndex := GetInt (default ∅ (apps !! appId)) TLB_PORTINDEX 0 in
  (0 <= portIndex)%Z ->
  ips !! Z.to_nat portIndex = Some ip ->
  ports !! Z.to_nat portIndex = Some port ->
  createBackendInfo apps appId ips ports
    = Ok {| AppId := appId;
            Node := IPAddress_IPAddress ip +:+ ":" +:+ Sprintf_d port |}.
Proof.
  intros portIndex H0 Hip Hport. unfold Marathon.createBackendInfo.
  fold portIndex.
  by rewrite (index_in_range ips portIndex ip),
             (index_in_range ports portIndex port).
Qed.

Lemma createBackendInfo_out_of_range apps appId ips ports :
  let portIndex := GetInt (default ∅ (apps !! appId)) TLB_PORTINDEX 0 in
  (portIndex < 0 \/ Z.of_nat (length ips) <= portIndex
   \/ Z.of_nat (length ports) <= portIndex)%Z ->
  exists len, createBackendInfo apps appId ips ports
              = Panic (IndexOutOfRange portIndex len).
Proof.
  intros portIndex Hr. unfold Marathon.createBackendInfo. fold portIndex.
  destruct (index_cases ips portIndex) as [(ip & ? & ? & ->)|[? ->]];
    [|eauto].
  destruct (index_cases ports portIndex) as [(port & ? & Hp & ->)|[? ->]];
    [|eauto].
  apply lookup_lt_Some in Hp.
  assert (Z.to_nat portIndex < length ips)%nat by by eapply lookup_lt_Some.
  lia.
Qed.

Lemma createBackendInfo_node_at apps appId labels ips ports :
  apps !! appId = Some labels ->
  match node_at labels ips ports with
  | Some n => createBackendInfo apps appId ips ports
              = Ok {| AppId := appId; Node := n |}
  | None => exists p, createBackendInfo apps appId ips ports = Panic p
  end.
Proof.
  intros Hl. unfold Marathon.node_at.
  pose proof (createBackendInfo_in_range apps appId ips ports) as Hin.
  pose proof (createBackendInfo_out_of_range apps appId ips ports) as Hout.
  rewrite Hl in Hin, Hout. simpl in Hin, Hout.
  destruct (Z.leb_spec 0 (GetInt labels TLB_PORTINDEX 0)) as [H0|H0].
  - destruct (ips !! _) as [ip|] eqn:Hip.
    + destruct (ports !! _) as [port|] eqn:Hport; [by apply Hin|].
      apply lookup_ge_None_1 in Hport.
      destruct Hout as [len ->]; [lia|eauto].
    + apply lookup_ge_None_1 in Hip.
      destruct Hout as [len ->]; [lia|eauto].
  - destruct Hout as [len ->]; [lia|eauto].
Qed.

(** *** The loop combinator *)

Lemma mapM_nil_eq {A B : Type} (f : A -> option B) : mapM f [] = Some [].
Proof. reflexivity. Qed.

Lemma mapM_cons_eq {A B : Type} (f : A -> option B) x l :
  mapM f (x :: l) =
    match f x with
    | Some y => match mapM f l with
                | Some k => Some (y :: k)
                | None => None
                end
    | None => None
    end.
Proof.
  cbn. destruct (f x); [|reflexivity]. cbn.
  destruct (mapM f l); reflexivity.
Qed.

Lemma for_range_cons_ok {A : Type} (x : A) r body apps o1 apps1 :
  body x apps = (o1, Ok (tt, apps1)) ->
  for_range (x :: r) body apps
    = (o1 ++ fst (for_range r body apps1), snd (for_range r body apps1)).
Proof.
  intros Hx. simpl. unfold bind. rewrite Hx.
  by destruct (for_range r body apps1).
Qed.

Lemma for_range_cons_panic {A : Type} (x : A) r body apps o1 p :
  body x apps = (o1, Panic p) ->
  for_range (x :: r) body apps = (o1, Panic p).
Proof. intros Hx. simpl. unfold bind. by rewrite Hx. Qed.

(** *** Events *)

Lemma on_status_update client update apps :
  on_event client (EventIDStatusUpdate update) apps =
    let knownApp := bool_decide (is_Some (apps !! AppID update)) in
    let built := createBackendInfo apps (AppID update)
                   (IPAddresses update) (Ports update) in
    if knownApp && String.eqb (TaskStatus update) "TASK_FAILED" then
      match built with
      | Ok b => ([RemoveBackend b], Ok (tt, apps))
      | Panic p => ([], Panic p)
      end
    else if knownApp && String.eqb (TaskStatus update) "TASK_RUNNING" then
      match built with
      | Ok b => ([AddBackend b], Ok (tt, apps))
      | Panic p => ([], Panic p)
      end
    else ([], Ok (tt, apps)).
Proof.
  unfold Marathon.on_event, bind, containsApp. simpl.
  destruct (bool_decide _), (String.eqb _ "TASK_FAILED"),
    (String.eqb _ "TASK_RUNNING"); simpl; try reflexivity;
    unfold bind, Marathon.createBackendInfoM, send;
    by destruct (Marathon.createBackendInfo _ _ _ _ _ _).
Qed.

Lemma on_api_request client app apps :
  on_event client (EventIDAPIRequest app) apps =
    let info := {| AppInfo_AppId := ID (AppDefinition app);
                   AppInfo_Labels := Application_Labels (AppDefinition app) |} in
    match client_Application client (ID (AppDefinition app)) with
    | None =>
        if bool_decide (is_Some (apps !! ID (AppDefinition app)))
        then ([AppDropped info], Ok (tt, apps))
        else ([], Ok (tt, apps))
    | Some _ => ([AppUpdated info], Ok (tt, apps))
    end.
Proof.
  unfold Marathon.on_event, bind, containsApp, send. simpl.
  destruct (client_Application _ _); [done|].
  by destruct (bool_decide _).
Qed.

Lemma loop_cons_ok client event rest apps o1 apps1 :
  on_event client event apps = (o1, Ok (tt, apps1)) ->
  loop (RecvEvent client event :: rest) apps
    = (o1 ++ fst (loop rest apps1), snd (loop rest apps1)).
Proof.
  intros Hx. simpl. unfold bind. rewrite Hx.
  by destruct (Marathon.loop _ _ rest apps1).
Qed.

(** *** The initial scan *)

Lemma scan_task_node_at app task apps :
  apps !! ID app = Some (Application_Labels app) ->
  match node_at (Application_Labels app)
          (Task_IPAddresses task) (Task_Ports task) with
  | Some n => scan_task app task apps
              = ([AddBackend {| AppId := ID app; Node := n |}], Ok (tt, apps))
  | None => exists p, scan_task app task apps = ([], Panic p)
  end.
Proof.
  intros Hl.
  pose proof (createBackendInfo_node_at apps (ID app) _
                (Task_IPAddresses task) (Task_Ports task) Hl) as Hc.
  unfold Marathon.scan_task, bind, Marathon.createBackendInfoM, send.
  destruct (node_at _ _ _) as [n|].
  - by rewrite Hc.
  - destruct Hc as [p ->]. by exists p.
Qed.

Abbreviation task_node app :=
  (fun task => node_at (Application_Labels app)
                 (Task_IPAddresses task) (Task_Ports task)).
Abbreviation add_node app :=
  (fun n => AddBackend {| AppId := ID app; Node := n |}).

Lemma scan_tasks_ok app tasks nodes apps :
  apps !! ID app = Some (Application_Labels app) ->
  mapM (task_node app) tasks = Some nodes ->
  for_range tasks (scan_task app) apps
    = (map (add_node app) nodes, Ok (tt, apps)).
Proof.
  intros Hl. revert nodes.
  induction tasks as [|task tasks IH]; intros nodes Hm.
  - rewrite mapM_nil_eq in Hm. by simplify_eq.
  - rewrite mapM_cons_eq in Hm. pose proof (scan_task_node_at app task apps Hl) as Ht.
    destruct (node_at _ _ _) as [n|]; [|done].
    destruct (mapM _ tasks) as [ns|]; [|done]. simplify_eq.
    rewrite (for_range_cons_ok _ _ _ _ _ _ Ht), (IH ns eq_refl). done.
Qed.

Lemma scan_tasks_panic app tasks apps :
  apps !! ID app = Some (Application_Labels app) ->
  mapM (task_node app) tasks = None ->
  exists out p, for_range tasks (scan_task app) apps = (out, Panic p).
Proof.
  intros Hl. induction tasks as [|task tasks IH]; intros Hm; [done|].
  rewrite mapM_cons_eq in Hm. pose proof (scan_task_node_at app task apps Hl) as Ht.
  destruct (node_at _ _ _) as [n|].
  - destruct (mapM _ tasks) as [ns|]; [done|].
    destruct (IH eq_refl) as (out & p & Hr).
    rewrite (for_range_cons_ok _ _ _ _ _ _ Ht), Hr. simpl. eauto.
  - destruct Ht as [p Ht].
    rewrite (for_range_cons_panic _ _ _ _ _ _ Ht). eauto.
Qed.

Lemma scan_app_ok app out apps :
  app_commands app = Some out ->
  scan_app app apps = (out, Ok (tt, scan_known [app] apps)).
Proof.
  unfold Marathon.app_commands, Marathon.scan_app, Marathon.scan_known.
  simpl. destruct (GetBoolean _ _ _); [|by intros [= <-]].
  destruct (mapM _ _) as [nodes|] eqn:Hm; [|done]. intros [= <-].
  unfold bind at 1. unfold send at 1. unfold bind at 1. unfold appApp at 1.
  rewrite (scan_tasks_ok app (Tasks app) nodes); [done| |done].
  apply lookup_insert_eq.
Qed.

Lemma scan_app_panic app apps :
  app_commands app = None ->
  exists out p, scan_app app apps = (out, Panic p).
Proof.
  unfold Marathon.app_commands, Marathon.scan_app.
  destruct (GetBoolean _ _ _); [|done].
  destruct (mapM _ _) as [nodes|] eqn:Hm; [done|]. intros _.
  unfold bind at 1. unfold send at 1. unfold bind at 1. unfold appApp at 1.
  destruct (scan_tasks_panic app (Tasks app)
              (<[ID app := Application_Labels app]> apps))
    as (out & p & ->); [apply lookup_insert_eq|done|]. eauto.
Qed.

Lemma scan_known_cons app listed apps :
  scan_known (app :: listed) apps = scan_known listed (scan_known [app] apps).
Proof. done. Qed.

Lemma scan_apps_ok listed outs apps :
  mapM app_commands listed = Some outs ->
  for_range listed scan_app apps
    = (concat outs, Ok (tt, scan_known listed apps)).
Proof.
  revert outs apps.
  induction listed as [|app listed IH]; intros outs apps Hm.
  - rewrite mapM_nil_eq in Hm. by simplify_eq.
  - rewrite mapM_cons_eq in Hm. destruct (app_commands app) as [o|] eqn:Ho; [|done].
    destruct (mapM _ listed) as [os|]; [|done]. simplify_eq.
    rewrite (for_range_cons_ok _ _ _ _ _ _ (scan_app_ok app o apps Ho)).
    by rewrite (IH os _ eq_refl).
Qed.

Lemma scan_apps_panic listed apps :
  mapM app_commands listed = None ->
  exists out p, for_range listed scan_app apps = (out, Panic p).
Proof.
  revert apps. induction listed as [|app listed IH]; intros apps Hm;
    [done|].
  rewrite mapM_cons_eq in Hm. destruct (app_commands app) as [o|] eqn:Ho.
  - destruct (mapM _ listed) as [os|]; [done|].
    destruct (IH (scan_known [app] apps) eq_refl) as (out & p & Hr).
    rewrite (for_range_cons_ok _ _ _ _ _ _ (scan_app_ok app o apps Ho)), Hr.
    simpl. eauto.
  - destruct (scan_app_panic app apps Ho) as (out & p & Hr).
    rewrite (for_range_cons_panic _ _ _ _ _ _ Hr). eauto.
Qed.

Lemma scan_app_not_enabled app apps :
  GetBoolean (Application_Labels app) TLB_ENABLED false = false ->
  scan_app app apps = ([], Ok (tt, apps)).
Proof. intros He. unfold Marathon.scan_app. by rewrite He. Qed.

(** *** The claims *)

(** C3. [createBackendInfo] reads the index from the port-index label
    of the app's recorded labels, with default 0.  When both reported
    arrays have that index it returns the app id with [ip:port] taken
    at that index; when the index is negative or not below the length
    of either array it fails with an index-out-of-range panic, there
    being no bounds check.  With a label reader that returns its
    default on a missing key, a missing label gives index 0. *)
Theorem createBackendInfo_label_index apps appId ips ports :
  let portIndex := GetInt (default ∅ (apps !! appId)) TLB_PORTINDEX 0 in
  (forall ip port,
     (0 <= portIndex)%Z ->
     ips !! Z.to_nat portIndex = Some ip ->
     ports !! Z.to_nat portIndex = Some port ->
     createBackendInfo apps appId ips ports
       = Ok {| AppId := appId;
               Node := IPAddress_IPAddress ip +:+ ":" +:+ Sprintf_d port |})
  /\ ((portIndex < 0 \/ Z.of_nat (length ips) <= portIndex
       \/ Z.of_nat (length ports) <= portIndex)%Z ->
      exists len, createBackendInfo apps appId ips ports
                  = Panic (IndexOutOfRange portIndex len))
  /\ ((forall kv key d, kv !! key = None -> GetInt kv key d = d) ->
      default ∅ (apps !! appId) !! TLB_PORTINDEX = None ->
      portIndex = 0%Z).
Proof.
  intros portIndex. split; [|split].
  - intros ip port. apply createBackendInfo_in_range.
  - apply createBackendInfo_out_of_range.
  - intros Hd Hnone. unfold portIndex. by apply Hd.
Qed.

(** C4, as amended.  A status update for an app that is not known
    sends nothing.  For a known app whose label-selected index is
    within both reported arrays, status TASK_FAILED sends exactly one
    [RemoveBackend] and status TASK_RUNNING exactly one [AddBackend],
    each with the node [ip:port] at that index; the known-apps map is
    unchanged. *)
Theorem status_update_known_in_range client update apps :
  let portIndex :=
    GetInt (default ∅ (apps !! AppID update)) TLB_PORTINDEX 0 in
  (apps !! AppID update = None ->
   on_event client (EventIDStatusUpdate update) apps = ([], Ok (tt, apps)))
  /\ (forall ip port,
        is_Some (apps !! AppID update) ->
        (0 <= portIndex)%Z ->
        IPAddresses update !! Z.to_nat portIndex = Some ip ->
        Ports update !! Z.to_nat portIndex = Some port ->
        let b := {| AppId := AppID update;
                    Node := IPAddress_IPAddress ip +:+ ":"
                              +:+ Sprintf_d port |} in
        (TaskStatus update = "TASK_FAILED" ->
         on_event client (EventIDStatusUpdate update) apps
           = ([RemoveBackend b], Ok (tt, apps)))
        /\ (TaskStatus update = "TASK_RUNNING" ->
            on_event client (EventIDStatusUpdate update) apps
              = ([AddBackend b], Ok (tt, apps)))).
Proof.
  intros portIndex. rewrite on_status_update. cbv zeta. split.
  - intros Hnone. rewrite bool_decide_false; [done|].
    rewrite Hnone. by intros [? ?].
  - intros ip port Hknown H0 Hip Hport.
    rewrite bool_decide_true by done.
    rewrite (createBackendInfo_in_range apps _ _ _ ip port H0 Hip Hport).
    split; intros ->; reflexivity.
Qed.

(** C9. A status update whose task status is neither TASK_FAILED nor
    TASK_RUNNING sends nothing and leaves the known-apps map as it
    is, whether or not the app is known. *)
Theorem status_update_other_status_ignored client update apps :
  TaskStatus update <> "TASK_FAILED" ->
  TaskStatus update <> "TASK_RUNNING" ->
  on_event client (EventIDStatusUpdate update) apps = ([], Ok (tt, apps)).
Proof.
  intros Hf Hr. rewrite on_status_update. cbv zeta.
  apply String.eqb_neq in Hf, Hr. rewrite Hf, Hr.
  by rewrite !andb_false_r.
Qed.

(** C1, as amended.  An API-request event whose re-fetch fails, for a
    known app, sends exactly one [AppDropped] with the event's id and
    labels and leaves the known-apps map as it is; a second identical
    event therefore sends one [AppDropped] again. *)
Theorem api_request_fetch_fails_drops_again client app apps :
  client_Application client (ID (AppDefinition app)) = None ->
  is_Some (apps !! ID (AppDefinition app)) ->
  let dropped :=
    AppDropped {| AppInfo_AppId := ID (AppDefinition app);
                  AppInfo_Labels := Application_Labels (AppDefinition app) |} in
  on_event client (EventIDAPIRequest app) apps = ([dropped], Ok (tt, apps))
  /\ loop [RecvEvent client (EventIDAPIRequest app);
           RecvEvent client (EventIDAPIRequest app)] apps
     = ([dropped; dropped], Ok (tt, apps)).
Proof.
  intros Hfetch Hknown dropped.
  assert (on_event client (EventIDAPIRequest app) apps
          = ([dropped], Ok (tt, apps))) as Hone.
  { rewrite on_api_request. cbv zeta. rewrite Hfetch.
    by rewrite bool_decide_true. }
  split; [exact Hone|].
  rewrite (loop_cons_ok _ _ _ _ _ _ Hone).
  rewrite (loop_cons_ok _ _ _ _ _ _ Hone). reflexivity.
Qed.

(** C6, what the code does.  An API-request event whose re-fetch
    succeeds sends exactly one [AppUpdated] with the event's id and
    labels, and the known-apps map is left as it was: the app is not
    recorded. *)
Theorem api_request_fetch_succeeds_not_recorded client app apps fetched :
  client_Application client (ID (AppDefinition app)) = Some fetched ->
  on_event client (EventIDAPIRequest app) apps
    = ([AppUpdated
          {| AppInfo_AppId := ID (AppDefinition app);
             AppInfo_Labels := Application_Labels (AppDefinition app) |}],
       Ok (tt, apps)).
Proof. intros Hfetch. rewrite on_api_request. cbv zeta. by rewrite Hfetch. Qed.

(** C5. When the listing succeeds, the initial scan runs to completion
    exactly when every task of every enabled app has its
    label-selected index in both arrays, and then it has sent, app by
    app in listing order, nothing for an app without the enable label
    and otherwise one [AppUpdated] followed by one [AddBackend] per
    task with the node at the label-selected index; the known-apps
    map has gained the id and labels of the enabled apps and nothing
    else. *)
Theorem scanAllApps_successful client listed apps out apps' :
  client_Applications client = Some listed ->
  (scanAllApps client apps = (out, Ok (tt, apps'))
   <-> exists outs,
         mapM app_commands listed = Some outs
         /\ out = concat outs
         /\ apps' = scan_known listed apps).
Proof.
  intros Hlist. unfold Marathon.scanAllApps. rewrite Hlist. split.
  - intros Hscan.
    destruct (mapM app_commands listed) as [outs|] eqn:Hm.
    + rewrite (scan_apps_ok listed outs apps Hm) in Hscan.
      exists outs. by simplify_eq.
    + destruct (scan_apps_panic listed apps Hm) as (o & p & Hp).
      rewrite Hp in Hscan. discriminate.
  - intros (outs & Hm & -> & ->). by apply scan_apps_ok.
Qed.

End Provider.

(** *** Concrete runs *)

Import Scenario.

Lemma Ref_GetInt_default (kv : Labels) key d :
  kv !! key = None -> Ref.GetInt kv key d = d.
Proof. intros Hn. unfold Ref.GetInt. by rewrite Hn. Qed.

Lemma createBackendInfo_label_index_witness :
  Ref.createBackendInfo {[ "app1" := app1_labels ]} "app1"
    [ip "10.0.0.1"; ip "10.0.0.2"] [9000%Z; 9001%Z]
    = Ok {| AppId := "app1"; Node := "10.0.0.1:9000" |}
  /\ (exists len,
        Ref.createBackendInfo {[ "app1" := app1_labels ]} "app1"
          [ip "10.0.0.1"] []
          = Panic (IndexOutOfRange 0 len))
  /\ Ref.GetInt (default ∅ ((∅ : gmap string Labels) !! "app1"))
       Ref.TLB_PORTINDEX 0 = 0%Z.
Proof.
  split; [|split].
  - apply (proj1 (createBackendInfo_label_index Ref.TLB_PORTINDEX Ref.GetInt
                    {[ "app1" := app1_labels ]} "app1"
                    [ip "10.0.0.1"; ip "10.0.0.2"] [9000%Z; 9001%Z])
             (ip "10.0.0.1") 9000%Z).
    + vm_compute. discriminate.
    + vm_compute. reflexivity.
    + vm_compute. reflexivity.
  - refine (proj1 (proj2 (createBackendInfo_label_index
                            Ref.TLB_PORTINDEX Ref.GetInt
                            {[ "app1" := app1_labels ]} "app1"
                            [ip "10.0.0.1"] [])) _).
    right. right. vm_compute. discriminate.
  - refine (proj2 (proj2 (createBackendInfo_label_index
                            Ref.TLB_PORTINDEX Ref.GetInt
                            ∅ "app1" [] [])) _ _).
    + apply Ref_GetInt_default.
    + vm_compute. reflexivity.
Defined.

(** C4, counterexample.  The app is known and the status is
    TASK_FAILED, but the event reports no endpoint: address
    construction panics and no [RemoveBackend] is sent. *)
Lemma status_update_failed_without_endpoints :
  is_Some (({[ "app1" := app1_labels ]} : gmap string Labels) !! "app1")
  /\ Ref.on_event (orchestrator [] [app1])
       (status "app1" "TASK_FAILED" [] []) {[ "app1" := app1_labels ]}
     = ([], Panic (IndexOutOfRange 0 0)).
Proof. split; [eexists|]; vm_compute; reflexivity. Qed.

Lemma status_update_known_in_range_witness :
  is_Some (({[ "app1" := app1_labels ]} : gmap string Labels) !! "app1")
  /\ Ref.on_event (orchestrator [] [app1])
       (status "app1" "TASK_FAILED" [ip "10.0.0.1"] [9000%Z])
       {[ "app1" := app1_labels ]}
     = ([RemoveBackend {| AppId := "app1"; Node := "10.0.0.1:9000" |}],
        Ok (tt, {[ "app1" := app1_labels ]}))
  /\ Ref.on_event (orchestrator [] [app1])
       (status "app2" "TASK_FAILED" [ip "10.0.0.1"] [9000%Z])
       {[ "app1" := app1_labels ]}
     = ([], Ok (tt, {[ "app1" := app1_labels ]})).
Proof.
  assert (Hknown : is_Some (({[ "app1" := app1_labels ]}
                              : gmap string Labels) !! "app1")).
  { eexists. vm_compute. reflexivity. }
  split; [exact Hknown|]. split.
  - refine (proj1 (proj2 (status_update_known_in_range
                            Ref.TLB_PORTINDEX Ref.GetInt
                            (orchestrator [] [app1])
                            {| AppID := "app1"; TaskStatus := "TASK_FAILED";
                               IPAddresses := [ip "10.0.0.1"];
                               Ports := [9000%Z] |}
                            {[ "app1" := app1_labels ]})
                          (ip "10.0.0.1") 9000%Z Hknown _ _ _) eq_refl).
    + vm_compute. discriminate.
    + vm_compute. reflexivity.
    + vm_compute. reflexivity.
  - refine (proj1 (status_update_known_in_range
                     Ref.TLB_PORTINDEX Ref.GetInt
                     (orchestrator [] [app1])
                     {| AppID := "app2"; TaskStatus := "TASK_FAILED";
                        IPAddresses := [ip "10.0.0.1"];
                        Ports := [9000%Z] |}
                     {[ "app1" := app1_labels ]}) _).
    vm_compute. reflexivity.
Defined.

Lemma status_update_other_status_ignored_witness :
  "TASK_KILLED" <> "TASK_FAILED"
  /\ "TASK_KILLED" <> "TASK_RUNNING"
  /\ Ref.on_event (orchestrator [] [app1])
       (status "app1" "TASK_KILLED" [ip "10.0.0.1"] [9000%Z])
       {[ "app1" := app1_labels ]}
     = ([], Ok (tt, {[ "app1" := app1_labels ]})).
Proof.
  split; [discriminate|]. split; [discriminate|].
  apply (status_update_other_status_ignored Ref.TLB_PORTINDEX Ref.GetInt
           (orchestrator [] [app1])
           {| AppID := "app1"; TaskStatus := "TASK_KILLED";
              IPAddresses := [ip "10.0.0.1"]; Ports := [9000%Z] |});
    discriminate.
Defined.

(** C1, counterexample.  The app is known and its re-fetch fails: one
    [AppDropped] is sent, the app is still in the known-apps map
    afterwards, and the same event sends [AppDropped] a second time. *)
Lemma api_request_drop_keeps_app_known :
  exists apps1,
    Ref.on_event (orchestrator [] []) (api_request app1)
      {[ "app1" := app1_labels ]}
    = ([AppDropped app1_info], Ok (tt, apps1))
    /\ is_Some (apps1 !! "app1")
    /\ fst (Ref.on_event (orchestrator [] []) (api_request app1) apps1)
       = [AppDropped app1_info].
Proof.
  exists {[ "app1" := app1_labels ]}.
  split; [vm_compute; reflexivity|].
  split; [eexists|]; vm_compute; reflexivity.
Qed.

Lemma api_request_fetch_fails_drops_again_witness :
  client_Application (orchestrator [] []) "app1" = None
  /\ is_Some (({[ "app1" := app1_labels ]} : gmap string Labels) !! "app1")
  /\ Ref.loop [RecvEvent (orchestrator [] []) (api_request app1);
               RecvEvent (orchestrator [] []) (api_request app1)]
       {[ "app1" := app1_labels ]}
     = ([AppDropped app1_info; AppDropped app1_info],
        Ok (tt, {[ "app1" := app1_labels ]})).
Proof.
  assert (Hknown : is_Some (({[ "app1" := app1_labels ]}
                              : gmap string Labels) !! "app1")).
  { eexists. vm_compute. reflexivity. }
  split; [reflexivity|]. split; [exact Hknown|].
  exact (proj2 (api_request_fetch_fails_drops_again
                  Ref.TLB_PORTINDEX Ref.GetInt
                  (orchestrator [] []) {| AppDefinition := app1 |}
                  {[ "app1" := app1_labels ]} eq_refl Hknown)).
Defined.

(** C6 at a concrete input.  Nothing is known; an API-request event
    announces the enabled app and its re-fetch succeeds: [AppUpdated]
    is sent but the app is not recorded, so the TASK_RUNNING update that
    follows is ignored.  The initial scan of the same app does record
    it. *)
Lemma api_request_fetch_succeeds_not_recorded_witness :
  client_Application (orchestrator [app1] [app1]) "app1" = Some app1
  /\ Ref.on_event (orchestrator [app1] [app1]) (api_request app1) ∅
     = ([AppUpdated app1_info], Ok (tt, ∅))
  /\ Ref.loop [RecvEvent (orchestrator [app1] [app1]) (api_request app1);
               RecvEvent (orchestrator [app1] [app1])
                 (status "app1" "TASK_RUNNING" [ip "10.0.0.1"] [9000%Z])] ∅
     = ([AppUpdated app1_info], Ok (tt, ∅))
  /\ snd (Ref.scanAllApps (orchestrator [app1] [app1]) ∅)
     = Ok (tt, {[ "app1" := app1_labels ]}).
Proof.
  split; [reflexivity|]. split.
  - exact (api_request_fetch_succeeds_not_recorded
             Ref.TLB_PORTINDEX Ref.GetInt
             (orchestrator [app1] [app1]) {| AppDefinition := app1 |}
             ∅ app1 eq_refl).
  - split; vm_compute; reflexivity.
Defined.

Lemma scanAllApps_successful_witness :
  client_Applications (orchestrator [app1] [app1]) = Some [app1]
  /\ Ref.scanAllApps (orchestrator [app1] [app1]) ∅
     = ([AppUpdated app1_info;
         AddBackend {| AppId := "app1"; Node := "10.0.0.1:9000" |}],
        Ok (tt, {[ "app1" := app1_labels ]})).
Proof.
  split; [reflexivity|].
  apply (proj2 (scanAllApps_successful
                  Ref.TLB_ENABLED Ref.TLB_PORTINDEX Ref.GetBoolean Ref.GetInt
                  (orchestrator [app1] [app1]) [app1] ∅ _ _ eq_refl)).
  exists [[AppUpdated app1_info;
           AddBackend {| AppId := "app1"; Node := "10.0.0.1:9000" |}]].
  split; [vm_compute; reflexivity|]. split; vm_compute; reflexivity.
Defined.

End MarathonFacts.

(** * Further properties of the Frontend *)

Module FrontendMore.

Import Frontend FrontendFacts.

Section WithStrategy.

Context {S : Type} `{Strategy.LoadBalancingStrategy S}.

Implicit Types (f : Frontend S) (l : list string) (b c : string).

Lemma RemoveBackend_cases f b :
  ((b ∉ backends f) /\ backends (fst (RemoveBackend b f)) = backends f)
  \/ (exists l1 l2, backends f = l1 ++ b :: l2 /\ (b ∉ l1)
                  /\ backends (fst (RemoveBackend b f)) = l1 ++ l2).
Proof.
  destruct (decide (b ∈ backends f)) as [Hin|Hnin].
  - right. destruct (first_occurrence _ _ Hin) as (l1 & l2 & Hl & Hn).
    exists l1, l2. by rewrite (RemoveBackend_split f b l1 l2).
  - left. by rewrite RemoveBackend_not_found.
Qed.

Lemma RemoveBackend_sublist f b :
  sublist (backends (fst (RemoveBackend b f))) (backends f).
Proof.
  destruct (RemoveBackend_cases f b) as [[_ ->]|(l1 & l2 & -> & _ & ->)];
    [done|].
  apply sublist_app; [done|]. by apply sublist_cons.
Qed.

Lemma do_call_strategy call f :
  strategy (do_call call f)
  = match call with
    | CallAdd b => Strategy.AddBackend b (strategy f)
    | CallRemove b => Strategy.RemoveBackend b (strategy f)
    end
  /\ appId (do_call call f) = appId f
  /\ port (do_call call f) = port f.
Proof.
  destruct call as [b|b]; [done|]. simpl. unfold RemoveBackend.
  by destruct (findIdxOfBackend f b) as [idx [|]].
Qed.

Lemma do_call_elem_of call f b :
  b ∈ backends (do_call call f) -> b ∈ backends f \/ call = CallAdd b.
Proof.
  destruct call as [x|x]; simpl.
  - intros [Hin|Hin]%elem_of_app; [by left|].
    apply list_elem_of_singleton in Hin as ->. by right.
  - intros Hin. left. eapply elem_of_sublist; [exact Hin|].
    apply RemoveBackend_sublist.
Qed.

(** X1. [findIdxOfBackend] reports found exactly when the node is in the
    list, and then returns the first index that holds it, within the
    bounds of the list; otherwise it returns index -1. *)
Theorem findIdxOfBackend_first_index f b :
  match findIdxOfBackend f b with
  | (idx, true) =>
      (0 <= idx < Z.of_nat (length (backends f)))%Z
      /\ backends f !! Z.to_nat idx = Some b
      /\ forall j, (j < Z.to_nat idx)%nat -> backends f !! j <> Some b
  | (idx, false) => idx = (-1)%Z /\ b ∉ backends f
  end.
Proof.
  unfold findIdxOfBackend.
  destruct (decide (b ∈ backends f)) as [Hin|Hnin].
  - destruct (first_occurrence _ _ Hin) as (l1 & l2 & Hl & Hn).
    rewrite Hl, findIdx_from_split by done.
    rewrite Z.add_0_l, Nat2Z.id. split; [rewrite length_app; simpl; lia|].
    split.
    + by rewrite list_lookup_middle.
    + intros j Hj. rewrite lookup_app_l by done. intros Hb.
      apply Hn. by eapply list_elem_of_lookup_2.
  - by rewrite findIdx_from_absent.
Qed.

(** X2. [RemoveBackend] keeps everything else: the new list is the old
    one with elements left out and none moved, every other node occurs
    as often as before, and the removed node, when it was there, occurs
    exactly once less. *)
Theorem RemoveBackend_keeps_the_rest f b :
  sublist (backends (fst (RemoveBackend b f))) (backends f)
  /\ (forall c, c <> b ->
        count_occ String.string_dec (backends (fst (RemoveBackend b f))) c
        = count_occ String.string_dec (backends f) c)
  /\ (b ∈ backends f ->
      Datatypes.S
        (count_occ String.string_dec (backends (fst (RemoveBackend b f))) b)
      = count_occ String.string_dec (backends f) b).
Proof.
  split; [apply RemoveBackend_sublist|].
  destruct (RemoveBackend_cases f b) as [[Hn ->]|(l1 & l2 & -> & _ & ->)].
  - split; [done|]. by intros Hin.
  - split.
    + intros c Hc. rewrite !count_occ_app.
      by rewrite count_occ_cons_neq by done.
    + intros _. rewrite !count_occ_app.
      rewrite count_occ_cons_eq by done. lia.
Qed.

(** X3. [AddBackend] followed by [RemoveBackend] of the same node gives
    back the same backends up to order; when the node was not in the
    list it gives back the very same list and logs nothing. *)
Theorem AddBackend_then_RemoveBackend f b :
  backends (fst (RemoveBackend b (AddBackend b f))) ≡ₚ backends f
  /\ (b ∉ backends f ->
      backends (fst (RemoveBackend b (AddBackend b f))) = backends f
      /\ snd (RemoveBackend b (AddBackend b f)) = []).
Proof.
  destruct (decide (b ∈ backends f)) as [Hin|Hnin].
  - split; [|done].
    destruct (first_occurrence _ _ Hin) as (l1 & l2 & Hl & Hn).
    rewrite (RemoveBackend_split (AddBackend b f) b l1 (l2 ++ [b])); [|simpl|done].
    + simpl. rewrite Hl. apply Permutation_app_head.
      symmetry. apply Permutation_cons_append.
    + rewrite Hl. by rewrite <- app_assoc.
  - assert (RemoveBackend b (AddBackend b f)
            = (set_strategy (set_backends (AddBackend b f) (backends f ++ []))
                 (Strategy.RemoveBackend b (strategy (AddBackend b f))), []))
      as Hr by (by apply RemoveBackend_split).
    rewrite Hr. simpl. rewrite app_nil_r. done.
Qed.

(** X4. Every call is passed on to the strategy, in order, the removes
    that find nothing included; the id and the port never change. *)
Theorem run_passes_calls_to_strategy cs f :
  strategy (run cs f)
  = fold_left (fun s call =>
                 match call with
                 | CallAdd b => Strategy.AddBackend b s
                 | CallRemove b => Strategy.RemoveBackend b s
                 end) cs (strategy f)
  /\ appId (run cs f) = appId f
  /\ port (run cs f) = port f.
Proof.
  revert f. induction cs as [|call cs IH]; intros f; [done|].
  change (run (call :: cs) f) with (run cs (do_call call f)).
  destruct (IH (do_call call f)) as (-> & -> & ->).
  destruct (do_call_strategy call f) as (-> & -> & ->). done.
Qed.

(** X5. The backend list never holds a node that was neither there at
    the start nor added by an [AddBackend] of the sequence. *)
Theorem run_only_holds_added cs f b :
  b ∈ backends (run cs f) -> b ∈ backends f \/ CallAdd b ∈ cs.
Proof.
  revert f. induction cs as [|call cs IH]; intros f Hin; [by left|].
  change (run (call :: cs) f) with (run cs (do_call call f)) in Hin.
  destruct (IH _ Hin) as [Hd|Hc].
  - destruct (do_call_elem_of _ _ _ Hd) as [?| ->]; [by left|].
    right. apply list_elem_of_here.
  - right. by apply list_elem_of_further.
Qed.

End WithStrategy.

Import Scenario.

Lemma RemoveBackend_keeps_the_rest_witness :
  ("a" ∈ backends (fresh ["a"; "b"; "a"]))
  /\ Datatypes.S
       (count_occ String.string_dec
          (backends (fst (RemoveBackend "a" (fresh ["a"; "b"; "a"]))))
          "a")
     = 2%nat.
Proof.
  assert (Hin : "a" ∈ backends (fresh ["a"; "b"; "a"]))
    by apply list_elem_of_here.
  split; [exact Hin|].
  exact (proj2 (proj2 (RemoveBackend_keeps_the_rest
                         (fresh ["a"; "b"; "a"]) "a")) Hin).
Defined.

Lemma AddBackend_then_RemoveBackend_witness :
  ("b" ∉ backends (fresh ["a"]))
  /\ backends (fst (RemoveBackend "b" (AddBackend "b" (fresh ["a"])))) = ["a"].
Proof.
  assert (Hnin : "b" ∉ backends (fresh ["a"])).
  { simpl. intros Hin. apply list_elem_of_singleton in Hin. discriminate. }
  split; [exact Hnin|].
  exact (proj1 (proj2 (AddBackend_then_RemoveBackend (fresh ["a"]) "b") Hnin)).
Defined.

Lemma run_only_holds_added_witness :
  ("a" ∈ backends (run [CallAdd "a"; CallRemove "b"] (fresh ["b"])))
  /\ (("a" ∈ backends (fresh ["b"]))
      \/ CallAdd "a" ∈ [CallAdd "a"; CallRemove "b"]).
Proof.
  assert (Hin : "a" ∈ backends (run [CallAdd "a"; CallRemove "b"]
                                   (fresh ["b"])))
    by apply list_elem_of_here.
  split; [exact Hin|].
  exact (run_only_holds_added [CallAdd "a"; CallRemove "b"] (fresh ["b"])
           "a" Hin).
Defined.

End FrontendMore.

(** * The lock discipline *)

Module LockFacts.

Import Frontend Lock.

Section WithStrategy.

Context {S : Type} `{Strategy.LoadBalancingStrategy S}.

Implicit Types (m : machine S) (c : list instr) (tasks : list (list instr)).

Lemma bracketed_critical held c :
  bracketed held c = true -> critical c = held.
Proof.
  revert held. induction c as [|i c IH]; intros held Hb.
  - by destruct held.
  - destruct i; simpl in *; try (by apply IH);
      by destruct held.
Qed.

Lemma bracketed_code_of held meth c :
  bracketed held (code_of meth ++ c) = bracketed held c || false
  \/ bracketed held (code_of meth ++ c) = negb held && bracketed false c.
Proof. destruct meth; simpl; [left|right..]; by destruct held, (bracketed _ c). Qed.

Lemma bracketed_task_code ms : bracketed false (task_code ms) = true.
Proof.
  induction ms as [|meth ms IH]; [done|].
  change (task_code (meth :: ms)) with (code_of meth ++ task_code ms).
  destruct (bracketed_code_of false meth (task_code ms)) as [-> | ->];
    by rewrite IH.
Qed.

Lemma holders_none tasks :
  Forall (fun c => critical c = false) tasks -> holders tasks = 0%nat.
Proof. induction 1 as [|c tasks Hc _ IH]; simpl; [done|]. by rewrite Hc, IH. Qed.

Lemma holders_insert tasks t c c' :
  tasks !! t = Some c ->
  (holders (<[t := c']> tasks) + (if critical c then 1 else 0)
   = holders tasks + (if critical c' then 1 else 0))%nat.
Proof.
  revert t. induction tasks as [|x tasks IH]; intros [|t] Ht; simplify_eq/=.
  - lia.
  - specialize (IH t Ht). lia.
Qed.

Lemma holders_lookup tasks t c :
  tasks !! t = Some c -> critical c = true -> (1 <= holders tasks)%nat.
Proof.
  revert t. induction tasks as [|x tasks IH]; intros [|t] Ht Hc; simplify_eq/=.
  - rewrite Hc. lia.
  - specialize (IH t Ht Hc). lia.
Qed.

Lemma holders_two tasks t1 t2 c1 c2 :
  t1 <> t2 ->
  tasks !! t1 = Some c1 -> tasks !! t2 = Some c2 ->
  critical c1 = true -> critical c2 = true -> (2 <= holders tasks)%nat.
Proof.
  revert t1 t2.
  induction tasks as [|x tasks IH]; intros [|t1] [|t2] Hne H1 H2 Hc1 Hc2;
    simplify_eq/=.
  - rewrite Hc1. pose proof (holders_lookup _ _ _ H2 Hc2). lia.
  - rewrite Hc2. pose proof (holders_lookup _ _ _ H1 Hc1). lia.
  - assert (t1 <> t2) as Hne' by congruence.
    specialize (IH t1 t2 Hne' H1 H2 Hc1 Hc2). lia.
Qed.

Lemma holders_some tasks :
  (1 <= holders tasks)%nat ->
  exists t c, tasks !! t = Some c /\ critical c = true.
Proof.
  induction tasks as [|x tasks IH]; simpl; [lia|]. intros Hh.
  destruct (critical x) eqn:Hx.
  - by exists 0%nat, x.
  - destruct IH as (t & c & Ht & Hc); [lia|]. by exists (Datatypes.S t), c.
Qed.

(** What an atomic action does to the lock. *)
Lemma action_lock t i (f f' : Frontend S) locked locked' o :
  action t i f locked = Some (f', locked', o) ->
  match i with
  | ILock => locked = false /\ locked' = true
  | IUnlock => locked' = false
  | _ => locked' = locked
  end.
Proof.
  destruct i; simpl; intros Ha; try (by simplify_eq).
  - by destruct locked; simplify_eq.
  - destruct (findIdxOfBackend f backend) as [idx [|]]; by simplify_eq.
  - destruct (Strategy.Next (strategy f)); by simplify_eq.
Qed.

(** Only a [Lock] on a held mutex cannot run. *)
Lemma action_enabled t i (f : Frontend S) locked :
  (i = ILock -> locked = false) -> is_Some (action t i f locked).
Proof.
  intros Hl. destruct i; simpl; try done.
  - by rewrite Hl.
  - by destruct (findIdxOfBackend f backend) as [idx [|]].
  - by destruct (Strategy.Next (strategy f)).
Qed.

Lemma lock_inv_initial (f : Frontend S) calls : lock_inv (initial f calls).
Proof.
  assert (Forall (fun c => bracketed false c = true) (map task_code calls))
    as Hb.
  { apply Forall_forall. intros c (ms & -> & _)%list_elem_of_fmap.
    apply bracketed_task_code. }
  split; simpl.
  - eapply Forall_impl; [exact Hb|]. intros c Hc.
    by rewrite (bracketed_critical false c Hc).
  - apply holders_none. eapply Forall_impl; [exact Hb|].
    intros c Hc. by apply (bracketed_critical false).
Qed.

Lemma lock_inv_exec t m m' : lock_inv m -> exec t m = Some m' -> lock_inv m'.
Proof.
  intros [Hb Hh]. unfold exec.
  destruct (m_tasks m !! t) as [[|i rest]|] eqn:Ht; [done| |done].
  destruct (action t i (m_frontend m) (m_locked m)) as [[[f' locked'] o]|]
    eqn:Ha; [|done].
  intros [= <-]. apply action_lock in Ha.
  pose proof (holders_insert _ _ _ rest Ht) as Hi.
  pose proof (Forall_lookup_1 _ _ _ _ Hb Ht) as Hc. cbv beta in Hc.
  assert (bracketed (critical rest) rest = true
          /\ (holders (<[t := rest]> (m_tasks m))
              = if locked' then 1 else 0)%nat) as [Hr Hl].
  { destruct i; simpl in Ha, Hc, Hi;
      try (subst locked'; split;
             [exact Hc | rewrite <- Hh; lia]).
    - destruct Ha as [Hf ->]. rewrite Hf in Hh.
      pose proof (bracketed_critical true rest Hc) as Hcr.
      rewrite Hcr in *. split; [done|lia].
    - subst locked'.
      pose proof (bracketed_critical false rest Hc) as Hcr.
      rewrite Hcr in *. split; [done|]. destruct (m_locked m); lia. }
  split; simpl; [|exact Hl].
  by apply Forall_insert.
Qed.

Lemma lock_inv_exec_schedule sched m m' :
  lock_inv m -> exec_schedule sched m = Some m' -> lock_inv m'.
Proof.
  revert m. induction sched as [|t sched IH]; intros m Hinv; simpl.
  - by intros [= <-].
  - destruct (exec t m) as [m1|] eqn:He; [|done].
    apply IH. by eapply lock_inv_exec.
Qed.

(** X6. Whatever calls the tasks make and however they are scheduled,
    at most one task is between its [Lock] and its [Unlock], and the
    mutex is held exactly when there is one: [AddBackend],
    [RemoveBackend] and [LenOfBackends] exclude one another. *)
Theorem locking_methods_exclude_each_other (f : Frontend S) calls sched m' :
  exec_schedule sched (initial f calls) = Some m' ->
  holders (m_tasks m') = (if m_locked m' then 1 else 0)%nat
  /\ forall t1 t2 c1 c2,
       m_tasks m' !! t1 = Some c1 -> m_tasks m' !! t2 = Some c2 ->
       critical c1 = true -> critical c2 = true -> t1 = t2.
Proof.
  intros Hrun.
  destruct (lock_inv_exec_schedule _ _ _ (lock_inv_initial f calls) Hrun)
    as [_ Hh].
  split; [exact Hh|]. intros t1 t2 c1 c2 H1 H2 Hc1 Hc2.
  destruct (decide (t1 = t2)) as [|Hne]; [done|].
  pose proof (holders_two _ _ _ _ _ Hne H1 H2 Hc1 Hc2).
  destruct (m_locked m'); lia.
Qed.

(** X7. The lock never blocks the Frontend for good: after any schedule
    either every task has finished all its calls and the mutex is free,
    or some task can take its next step. *)
Theorem lock_never_deadlocks (f : Frontend S) calls sched m' :
  exec_schedule sched (initial f calls) = Some m' ->
  (Forall (fun c => c = []) (m_tasks m') /\ m_locked m' = false)
  \/ exists t m'', exec t m' = Some m''.
Proof.
  intros Hrun.
  destruct (lock_inv_exec_schedule _ _ _ (lock_inv_initial f calls) Hrun)
    as [Hb Hh].
  assert (forall t i rest,
            m_tasks m' !! t = Some (i :: rest) ->
            (i = ILock -> m_locked m' = false) ->
            exists m'', exec t m' = Some m'') as Hstep.
  { intros t i rest Ht Hl. unfold exec. rewrite Ht.
    destruct (action_enabled t i (m_frontend m') (m_locked m') Hl)
      as [[[f' l'] o] ->]. eauto. }
  destruct (m_locked m') eqn:Hlocked.
  - right. destruct (holders_some (m_tasks m')) as (t & c & Ht & Hc);
      [lia|].
    destruct c as [|i rest]; [done|]. exists t.
    apply (Hstep t i rest Ht). intros ->. done.
  - destruct (decide (Forall (fun c : list instr => c = []) (m_tasks m')))
      as [Hall|Hex].
    + by left.
    + right. apply not_Forall_Exists in Hex; [|apply _].
      apply Exists_exists in Hex as (c & Hin & Hne). simpl in Hne.
      apply list_elem_of_lookup in Hin as [t Ht].
      destruct c as [|i rest]; [done|]. exists t.
      by apply (Hstep t i rest Ht).
Qed.

End WithStrategy.

Import Scenario.

Lemma locking_methods_exclude_each_other_witness :
  exists m',
    exec_schedule [0; 0; 1]%nat
      (initial (fresh [])
         [[MAddBackend "10.0.0.1:9000"]; [MLookup]; [MLenOfBackends]])
    = Some m'
    /\ holders (m_tasks m') = 1%nat.
Proof.
  eexists. split; [vm_compute; reflexivity|].
  refine (proj1 (locking_methods_exclude_each_other (fresh [])
                   [[MAddBackend "10.0.0.1:9000"]; [MLookup]; [MLenOfBackends]]
                   [0; 0; 1]%nat _ _)).
  vm_compute. reflexivity.
Defined.

Lemma lock_never_deadlocks_witness :
  exists m',
    exec_schedule [0; 0; 1]%nat
      (initial (fresh [])
         [[MAddBackend "10.0.0.1:9000"]; [MLookup]; [MLenOfBackends]])
    = Some m'
    /\ ((Forall (fun c => c = []) (m_tasks m') /\ m_locked m' = false)
        \/ exists t m'', exec t m' = Some m'').
Proof.
  eexists. split; [vm_compute; reflexivity|].
  refine (lock_never_deadlocks (fresh [])
            [[MAddBackend "10.0.0.1:9000"]; [MLookup]; [MLenOfBackends]]
            [0; 0; 1]%nat _ _).
  vm_compute. reflexivity.
Defined.

End LockFacts.

(** * The accept loop *)

Module ListenerFacts.

Import Frontend Listener.

Section WithStrategy.

Context {S : Type} `{Strategy.LoadBalancingStrategy S}.

Implicit Types (f : Frontend S).

Lemma Lookup_keeps f :
  appId (snd (Lookup f)) = appId f
  /\ port (snd (Lookup f)) = port f
  /\ backends (snd (Lookup f)) = backends f.
Proof. unfold Lookup. by destruct (Strategy.Next (strategy f)). Qed.

Lemma lookups_keeps n f :
  appId (snd (lookups n f)) = appId f
  /\ port (snd (lookups n f)) = port f
  /\ backends (snd (lookups n f)) = backends f
  /\ length (fst (lookups n f)) = n.
Proof.
  revert f. induction n as [|n IH]; intros f; [done|]. simpl.
  destruct (Lookup_keeps f) as (Ha & Hp & Hb).
  destruct (Lookup f) as [backend f1]. simpl in *.
  destruct (IH f1) as (Ha' & Hp' & Hb' & Hl).
  destruct (lookups n f1) as [l f2]. simpl in *.
  repeat split; congruence.
Qed.

(** The requests made for [conns] with the nodes [nodes]. *)
Lemma accept_loop_conns conns tl f counter requests :
  accept_loop (map Conn conns ++ tl) f counter requests
  = accept_loop tl (snd (lookups (length conns) f))
      (counter + Z.of_nat (length conns))%Z
      (requests
       ++ zip_with (fun conn backend =>
                      {| req_conn := conn; req_backend := backend;
                         req_appId := appId f |})
                   conns (fst (lookups (length conns) f))).
Proof.
  revert f counter requests.
  induction conns as [|conn conns IH]; intros f counter requests.
  - simpl. by rewrite Z.add_0_r, app_nil_r.
  - cbn [map app accept_loop length lookups].
    destruct (Lookup_keeps f) as (Ha & _).
    destruct (Lookup f) as [backend f1]. simpl in Ha.
    rewrite IH. destruct (lookups (length conns) f1) as [l f2]. simpl.
    rewrite Ha, <- app_assoc. simpl. f_equal. lia.
Qed.

(** X8. [Start] on a listener that opened serves the accepted
    connections in order until [Accept] fails: each gets the node of the
    next [Lookup] and the Frontend's id, the request counter is the
    number of connections served, the run ends in [log.Fatal] with the
    accept error and what would have been accepted after it never is;
    the backend list is not touched.  When [net.Listen] fails, both the
    starting and the started line have been logged before [log.Fatal]
    and nothing is served. *)
Theorem Start_serves_until_accept_fails conns err rest f :
  let r := Start None (map Conn conns ++ AcceptError err :: rest) f in
  sv_end r = Fatal err
  /\ sv_counter r = Z.of_nat (length conns)
  /\ map req_conn (sv_requests r) = conns
  /\ map req_backend (sv_requests r) = fst (lookups (length conns) f)
  /\ Forall (fun q => req_appId q = appId f) (sv_requests r)
  /\ sv_frontend r = snd (lookups (length conns) f)
  /\ backends (sv_frontend r) = backends f
  /\ Start (Some err) (map Conn conns ++ rest) f
     = {| sv_frontend := f; sv_listening := false;
          sv_logs := [starting_line f; started_line f];
          sv_counter := 0; sv_requests := []; sv_end := Fatal err |}.
Proof.
  unfold Start. rewrite accept_loop_conns. simpl.
  destruct (lookups_keeps (length conns) f) as (_ & _ & Hb & Hl).
  destruct (lookups (length conns) f) as [nodes f']. simpl in *.
  repeat split; try done.
  - revert nodes Hl. induction conns as [|c conns IH]; intros [|n nodes] Hl;
      simplify_eq/=; [done|]. f_equal. by apply IH.
  - revert nodes Hl. induction conns as [|c conns IH]; intros [|n nodes] Hl;
      simplify_eq/=; [done|]. f_equal. by apply IH.
  - revert nodes Hl. induction conns as [|c conns IH]; intros [|n nodes] Hl;
      simplify_eq/=; constructor; [done|]. by apply IH.
Qed.

End WithStrategy.

End ListenerFacts.

(** * Further properties of the discovery event processor *)

Module ProviderFacts.

Import Marathon MarathonFacts Provider.

Section Provider.

Variables TLB_ENABLED TLB_PORTINDEX : string.
Variable GetBoolean : Labels -> string -> bool -> bool.
Variable GetInt : Labels -> string -> Z -> Z.

Local Abbreviation createBackendInfo :=
  (Marathon.createBackendInfo TLB_PORTINDEX GetInt).
Local Abbreviation createBackendInfoM :=
  (Marathon.createBackendInfoM TLB_PORTINDEX GetInt).
Local Abbreviation on_event := (Marathon.on_event TLB_PORTINDEX GetInt).
Local Abbreviation loop := (Marathon.loop TLB_PORTINDEX GetInt).
Local Abbreviation node_at := (Marathon.node_at TLB_PORTINDEX GetInt).
Local Abbreviation scan_task := (Marathon.scan_task TLB_PORTINDEX GetInt).
Local Abbreviation scan_app :=
  (Marathon.scan_app TLB_ENABLED TLB_PORTINDEX GetBoolean GetInt).
Local Abbreviation scanAllApps :=
  (Marathon.scanAllApps TLB_ENABLED TLB_PORTINDEX GetBoolean GetInt).
Local Abbreviation start :=
  (Marathon.start TLB_ENABLED TLB_PORTINDEX GetBoolean GetInt).
Local Abbreviation app_commands :=
  (Marathon.app_commands TLB_ENABLED TLB_PORTINDEX GetBoolean GetInt).
Local Abbreviation scan_known := (Marathon.scan_known TLB_ENABLED GetBoolean).
Local Abbreviation last_enabled := (Provider.last_enabled TLB_ENABLED GetBoolean).
Local Abbreviation enabled_listed :=
  (Provider.enabled_listed TLB_ENABLED GetBoolean).
Local Abbreviation Provide :=
  (Provider.Provide TLB_ENABLED TLB_PORTINDEX GetBoolean GetInt).

Implicit Types (apps : gmap string Labels) (inputs : list received).

(** *** The task monad *)

Lemma bind_eq {A B : Type} (m : M A) (k : A -> M B) apps :
  bind m k apps =
    match m apps with
    | (o, Ok (a, apps')) => (o ++ fst (k a apps'), snd (k a apps'))
    | (o, Panic p) => (o, Panic p)
    end.
Proof.
  unfold bind. destruct (m apps) as [o [[a apps']|p]]; [|done].
  by destruct (k a apps').
Qed.


Lemma for_range_app_ok {A : Type} (l1 l2 : list A) body apps o1 apps1 :
  for_range l1 body apps = (o1, Ok (tt, apps1)) ->
  for_range (l1 ++ l2) body apps
  = (o1 ++ fst (for_range l2 body apps1), snd (for_range l2 body apps1)).
Proof.
  revert apps o1. induction l1 as [|x l1 IH]; intros apps o1 Hr.
  - simpl in Hr. unfold ret in Hr. simplify_eq. simpl.
    by destruct (for_range l2 body apps1).
  - simpl in Hr |- *. rewrite bind_eq in Hr |- *.
    destruct (body x apps) as [o [[[] apps2]|p]]; [|done].
    destruct (for_range l1 body apps2) as [o' r'] eqn:Hl1.
    simpl in Hr. simplify_eq.
    rewrite (IH _ _ Hl1). simpl. by rewrite app_assoc.
Qed.

(** *** The event loop *)

Lemma on_event_result client event apps :
  snd (on_event client event apps) = Ok (tt, apps)
  \/ exists p, snd (on_event client event apps) = Panic p.
Proof.
  destruct event as [update|app| |]; [| |by left..].
  - rewrite on_status_update. cbv zeta.
    destruct (_ && _); [|destruct (_ && _)]; [| |by left];
      destruct (Marathon.createBackendInfo _ _ _ _ _ _); eauto.
  - rewrite on_api_request. cbv zeta.
    destruct (client_Application _ _); [by left|].
    destruct (bool_decide _); by left.
Qed.

Lemma loop_cons client event rest apps :
  loop (RecvEvent client event :: rest) apps =
    match snd (on_event client event apps) with
    | Ok _ => (fst (on_event client event apps) ++ fst (loop rest apps),
               snd (loop rest apps))
    | Panic p => (fst (on_event client event apps), Panic p)
    end.
Proof.
  simpl. rewrite bind_eq.
  destruct (on_event_result client event apps) as [Hr|[p Hr]];
    destruct (Marathon.on_event _ _ client event apps) as [o r];
    simpl in Hr; by subst r.
Qed.

(** X9. The event loop never changes the known-apps map: whatever it
    receives, when it returns the map is the one it started with. *)
Theorem loop_keeps_known_apps inputs apps :
  match snd (loop inputs apps) with
  | Ok (_, apps') => apps' = apps
  | Panic _ => True
  end.
Proof.
  induction inputs as [|[client event|] inputs IH]; [done| |done].
  rewrite loop_cons.
  destruct (snd (on_event client event apps)); [exact IH|done].
Qed.

(** X10. Once the stop signal is received nothing more is processed:
    what is received after it has no effect on what is sent. *)
Theorem loop_ends_at_stop before after apps :
  loop (before ++ RecvStop :: after) apps = loop before apps.
Proof.
  induction before as [|[client event|] before IH]; [done| |done].
  rewrite <- app_comm_cons, !loop_cons. by rewrite IH.
Qed.

(** X11. Health-check failures and app terminations are received but
    have no case: leaving them out of what is received changes neither
    what is sent nor how the loop ends. *)
Theorem loop_skips_events_without_case inputs apps :
  loop (List.filter (fun r => negb (no_case r)) inputs) apps
  = loop inputs apps.
Proof.
  induction inputs as [|[client event|] inputs IH]; [done| |done].
  destruct event as [update|app| |]; cbn [List.filter no_case negb].
  - by rewrite !loop_cons, IH.
  - by rewrite !loop_cons, IH.
  - rewrite loop_cons, IH. simpl. by destruct (Marathon.loop _ _ inputs apps).
  - rewrite loop_cons, IH. simpl. by destruct (Marathon.loop _ _ inputs apps).
Qed.


Lemma loop_app before rest apps :
  RecvStop ∉ before ->
  (forall p, snd (loop before apps) <> Panic p) ->
  loop (before ++ rest) apps
  = (fst (loop before apps) ++ fst (loop rest apps), snd (loop rest apps)).
Proof.
  induction before as [|[client event|] before IH]; intros Hstop Hok.
  - simpl. by destruct (Marathon.loop _ _ rest apps).
  - apply not_elem_of_cons in Hstop as [_ Hstop].
    rewrite <- app_comm_cons, !loop_cons. rewrite loop_cons in Hok.
    destruct (snd (on_event client event apps)) as [?|p]; simpl in *.
    + rewrite (IH Hstop Hok). simpl. by rewrite app_assoc.
    + by destruct (Hok p).
  - exfalso. apply Hstop. apply list_elem_of_here.
Qed.

(** X16. One status update is enough to end the provider: when the app
    is known, the status is TASK_FAILED or TASK_RUNNING and the
    label-selected index is outside either reported array, the loop
    panics at that event with what it had sent before, and nothing
    received afterwards is handled. *)
Theorem loop_dies_on_bad_status_update before client update after apps :
  let portIndex :=
    GetInt (default ∅ (apps !! AppID update)) TLB_PORTINDEX 0 in
  RecvStop ∉ before ->
  (forall p, snd (loop before apps) <> Panic p) ->
  is_Some (apps !! AppID update) ->
  TaskStatus update = "TASK_FAILED" \/ TaskStatus update = "TASK_RUNNING" ->
  (portIndex < 0 \/ Z.of_nat (length (IPAddresses update)) <= portIndex
   \/ Z.of_nat (length (Ports update)) <= portIndex)%Z ->
  exists len,
    loop (before ++ RecvEvent client (EventIDStatusUpdate update) :: after) apps
    = (fst (loop before apps), Panic (IndexOutOfRange portIndex len)).
Proof.
  intros portIndex Hstop Hok Hknown Hstatus Hrange.
  destruct (createBackendInfo_out_of_range TLB_PORTINDEX GetInt apps
              (AppID update) (IPAddresses update) (Ports update) Hrange)
    as [len Hc].
  exists len. rewrite (loop_app _ _ _ Hstop Hok), loop_cons.
  rewrite on_status_update. cbv zeta. rewrite Hc.
  rewrite bool_decide_true by done.
  destruct Hstatus as [-> | ->]; simpl; by rewrite app_nil_r.
Qed.

(** *** The initial scan *)

Lemma find_snoc {A : Type} (p : A -> bool) l x :
  List.find p (l ++ [x]) =
    match List.find p l with
    | Some y => Some y
    | None => if p x then Some x else None
    end.
Proof.
  induction l as [|y l IH]; simpl; [by destruct (p x)|].
  by destruct (p y).
Qed.

Lemma scan_known_lookup listed apps id :
  scan_known listed apps !! id =
    match last_enabled listed id with
    | Some app => Some (Application_Labels app)
    | None => apps !! id
    end.
Proof.
  revert apps. induction listed as [|app listed IH]; intros apps; [done|].
  rewrite scan_known_cons, IH. unfold Provider.last_enabled.
  cbn [rev]. rewrite find_snoc.
  destruct (List.find _ (rev listed)); [done|].
  unfold Marathon.scan_known. simpl.
  destruct (GetBoolean _ _ _); simpl; [|done].
  destruct (String.eqb_spec (ID app) id) as [<-|Hne].
  - by rewrite lookup_insert_eq.
  - by rewrite lookup_insert_ne.
Qed.

Lemma scan_completed listed apps out apps' :
  for_range listed scan_app apps = (out, Ok (tt, apps')) ->
  apps' = scan_known listed apps.
Proof.
  intros Hscan. destruct (mapM app_commands listed) as [outs|] eqn:Hm.
  - rewrite (scan_apps_ok TLB_ENABLED TLB_PORTINDEX GetBoolean GetInt listed outs apps Hm) in Hscan.
    by simplify_eq.
  - destruct (scan_apps_panic TLB_ENABLED TLB_PORTINDEX GetBoolean GetInt listed apps Hm) as (o & p & Hp).
    rewrite Hp in Hscan. discriminate.
Qed.

(** X12. After a scan that ran to completion, the entry of an id in the
    known-apps map holds the labels of the last listed application with
    that id that carries the enable label; an id with no such
    application keeps the entry it had. *)
Theorem scan_records_last_enabled client listed apps out apps' id :
  client_Applications client = Some listed ->
  scanAllApps client apps = (out, Ok (tt, apps')) ->
  apps' !! id =
    match last_enabled listed id with
    | Some app => Some (Application_Labels app)
    | None => apps !! id
    end.
Proof.
  intros Hlist. unfold Marathon.scanAllApps. rewrite Hlist.
  intros ->%scan_completed. apply scan_known_lookup.
Qed.

Lemma scan_app_enabled app apps :
  GetBoolean (Application_Labels app) TLB_ENABLED false = true ->
  scan_app app apps
  = (AppUpdated {| AppInfo_AppId := ID app;
                   AppInfo_Labels := Application_Labels app |}
     :: fst (for_range (Tasks app) (scan_task app)
               (<[ID app := Application_Labels app]> apps)),
     snd (for_range (Tasks app) (scan_task app)
            (<[ID app := Application_Labels app]> apps))).
Proof.
  intros He. unfold Marathon.scan_app. rewrite He.
  unfold bind, send, appApp.
  by destruct (for_range (Tasks app) _ _).
Qed.

Lemma scan_app_bad_task app good bad rest nodes apps :
  GetBoolean (Application_Labels app) TLB_ENABLED false = true ->
  Tasks app = good ++ bad :: rest ->
  mapM (fun task => node_at (Application_Labels app)
                      (Task_IPAddresses task) (Task_Ports task)) good
    = Some nodes ->
  node_at (Application_Labels app) (Task_IPAddresses bad) (Task_Ports bad)
    = None ->
  exists p,
    scan_app app apps
    = (AppUpdated {| AppInfo_AppId := ID app;
                     AppInfo_Labels := Application_Labels app |}
       :: map (fun n => AddBackend {| AppId := ID app; Node := n |}) nodes,
       Panic p).
Proof.
  intros He Ht Hgood Hbad. rewrite (scan_app_enabled app apps He), Ht.
  set (apps1 := <[ID app := Application_Labels app]> apps).
  assert (apps1 !! ID app = Some (Application_Labels app)) as Hl
    by apply lookup_insert_eq.
  rewrite (for_range_app_ok good (bad :: rest) _ _ _ _
             (scan_tasks_ok TLB_PORTINDEX GetInt app good nodes apps1 Hl Hgood)).
  pose proof (scan_task_node_at TLB_PORTINDEX GetInt app bad apps1 Hl) as Hb.
  rewrite Hbad in Hb. destruct Hb as [p Hb].
  rewrite (for_range_cons_panic _ _ _ _ _ _ Hb). simpl.
  exists p. by rewrite app_nil_r.
Qed.

(** X13. A task whose label-selected index is out of range ends the
    scan on the spot: by then the applications listed before have been
    handled in full, the task's own application has been announced and
    the backends of its earlier tasks added; the rest of its tasks and
    every application listed after it are never reached. *)
Theorem scan_ends_at_first_bad_task
    client before app after outs good bad rest nodes apps :
  client_Applications client = Some (before ++ app :: after) ->
  mapM app_commands before = Some outs ->
  GetBoolean (Application_Labels app) TLB_ENABLED false = true ->
  Tasks app = good ++ bad :: rest ->
  mapM (fun task => node_at (Application_Labels app)
                      (Task_IPAddresses task) (Task_Ports task)) good
    = Some nodes ->
  node_at (Application_Labels app) (Task_IPAddresses bad) (Task_Ports bad)
    = None ->
  exists p,
    scanAllApps client apps
    = (concat outs
       ++ AppUpdated {| AppInfo_AppId := ID app;
                        AppInfo_Labels := Application_Labels app |}
          :: map (fun n => AddBackend {| AppId := ID app; Node := n |}) nodes,
       Panic p).
Proof.
  intros Hlist Hbefore He Ht Hgood Hbad.
  unfold Marathon.scanAllApps. rewrite Hlist.
  rewrite (for_range_app_ok before (app :: after) _ _ _ _
             (scan_apps_ok TLB_ENABLED TLB_PORTINDEX GetBoolean GetInt before outs apps Hbefore)).
  destruct (scan_app_bad_task app good bad rest nodes
              (scan_known before apps) He Ht Hgood Hbad) as [p Hp].
  rewrite (for_range_cons_panic _ _ _ _ _ _ Hp). by exists p.
Qed.

(** *** What a provider started from scratch can send *)

Lemma triple_ret {A : Type} (J : gmap string Labels -> Prop) P (a : A) :
  triple J (ret a) P (fun _ => J).
Proof. intros apps HI. split; [constructor|exact HI]. Qed.

Lemma triple_bind {A B : Type} J (m : M A) (k : A -> M B) P Q R :
  triple J m P Q -> (forall a, triple (Q a) (k a) P R) ->
  triple J (bind m k) P R.
Proof.
  intros Hm Hk apps HI. rewrite bind_eq.
  destruct (Hm apps HI) as [Ho Hq].
  destruct (m apps) as [o [[a apps']|p]]; simpl in *; [|done].
  destruct (Hk a apps' Hq) as [Ho' Hr].
  split; [by apply Forall_app|exact Hr].
Qed.

Lemma triple_for_range {A : Type} J (l : list A) body P :
  (forall x, x ∈ l -> triple J (body x) P (fun _ => J)) ->
  triple J (for_range l body) P (fun _ => J).
Proof.
  induction l as [|x l IH]; intros Hbody; [apply triple_ret|].
  simpl. apply triple_bind with (Q := fun _ => J).
  - apply Hbody, list_elem_of_here.
  - intros _. apply IH. intros y Hy. by apply Hbody, list_elem_of_further.
Qed.

Lemma createBackendInfo_AppId apps appId ips ports b :
  createBackendInfo apps appId ips ports = Ok b -> AppId b = appId.
Proof.
  unfold Marathon.createBackendInfo.
  destruct (index ips _); [|done]. destruct (index ports _); [|done].
  by intros [= <-].
Qed.

Lemma triple_send_backend client appId ips ports
    (mk : BackendInfo -> command) :
  (forall b, command_app (mk b) = Some (AppId b)) ->
  enabled_listed client appId ->
  triple (known_ok TLB_ENABLED GetBoolean client)
    (b <- createBackendInfoM appId ips ports ;; send (mk b))
    (cmd_ok TLB_ENABLED GetBoolean client)
    (fun _ => known_ok TLB_ENABLED GetBoolean client).
Proof.
  intros Hmk He apps HI. rewrite bind_eq.
  unfold Marathon.createBackendInfoM.
  destruct (createBackendInfo apps appId ips ports) as [b|p] eqn:Hc; simpl;
    [|by split].
  split; [|exact HI]. constructor; [|constructor].
  unfold cmd_ok. rewrite Hmk.
  by rewrite (createBackendInfo_AppId _ _ _ _ _ Hc).
Qed.

Lemma triple_scan_app client listed app :
  client_Applications client = Some listed -> app ∈ listed ->
  triple (known_ok TLB_ENABLED GetBoolean client) (scan_app app)
    (cmd_ok TLB_ENABLED GetBoolean client)
    (fun _ => known_ok TLB_ENABLED GetBoolean client).
Proof.
  intros Hlist Hin. unfold Marathon.scan_app.
  destruct (GetBoolean _ _ _) eqn:He; [|apply triple_ret].
  assert (enabled_listed client (ID app)) as Hen by (by exists listed, app).
  eapply triple_bind with (Q := fun _ => known_ok TLB_ENABLED GetBoolean client).
  { intros apps HI. split; [|exact HI]. by repeat constructor. }
  intros _.
  eapply triple_bind with (Q := fun _ => known_ok TLB_ENABLED GetBoolean client).
  { intros apps HI. split; [constructor|]. simpl. intros id.
    destruct (decide (ID app = id)) as [<-|Hne]; [done|].
    rewrite lookup_insert_ne by done. apply HI. }
  intros _. apply triple_for_range. intros task _.
  by apply (triple_send_backend client (ID app) _ _ AddBackend).
Qed.

Lemma triple_scanAllApps client :
  triple (known_ok TLB_ENABLED GetBoolean client) (scanAllApps client)
    (cmd_ok TLB_ENABLED GetBoolean client)
    (fun _ => known_ok TLB_ENABLED GetBoolean client).
Proof.
  unfold Marathon.scanAllApps.
  destruct (client_Applications client) as [listed|] eqn:Hlist;
    [|apply triple_ret].
  apply triple_for_range. intros app Hin.
  by apply (triple_scan_app client listed).
Qed.

Lemma on_status_update_branches client update apps :
  on_event client (EventIDStatusUpdate update) apps =
    (if bool_decide (is_Some (apps !! AppID update))
        && String.eqb (TaskStatus update) "TASK_FAILED"
     then b <- createBackendInfoM (AppID update)
                 (IPAddresses update) (Ports update) ;;
          send (RemoveBackend b)
     else if bool_decide (is_Some (apps !! AppID update))
             && String.eqb (TaskStatus update) "TASK_RUNNING"
     then b <- createBackendInfoM (AppID update)
                 (IPAddresses update) (Ports update) ;;
          send (AddBackend b)
     else ret tt) apps.
Proof.
  unfold Marathon.on_event. unfold bind at 1. unfold containsApp at 1.
  match goal with |- (let '(_, _) := ?x in _) = _ => by destruct x end.
Qed.

Lemma triple_on_event client client' event :
  triple (known_ok TLB_ENABLED GetBoolean client) (on_event client' event)
    (cmd_ok TLB_ENABLED GetBoolean client)
    (fun _ => known_ok TLB_ENABLED GetBoolean client).
Proof.
  destruct event as [update|app| |]; try apply triple_ret.
  - intros apps HI. rewrite on_status_update_branches.
    case_bool_decide as Hk; cbn [andb]; [|by apply triple_ret].
    destruct (String.eqb _ "TASK_FAILED").
    { by apply (triple_send_backend client _ _ _ RemoveBackend);
        [|apply HI|]. }
    destruct (String.eqb _ "TASK_RUNNING").
    { by apply (triple_send_backend client _ _ _ AddBackend);
        [|apply HI|]. }
    by apply triple_ret.
  - intros apps HI. rewrite on_api_request. cbv zeta.
    destruct (client_Application _ _).
    + split; [|exact HI]. by repeat constructor.
    + case_bool_decide as Hk; (split; [|exact HI]); [|constructor].
      constructor; [|constructor]. by apply HI.
Qed.

Lemma triple_loop client inputs :
  triple (known_ok TLB_ENABLED GetBoolean client) (loop inputs)
    (cmd_ok TLB_ENABLED GetBoolean client)
    (fun _ => known_ok TLB_ENABLED GetBoolean client).
Proof.
  induction inputs as [|[client' event|] inputs IH]; try apply triple_ret.
  simpl.
  apply triple_bind with (Q := fun _ => known_ok TLB_ENABLED GetBoolean client);
    [apply triple_on_event|]. by intros _.
Qed.

(** X14. A provider made by [NewMarathonProvider] sends [AddBackend],
    [RemoveBackend] and [AppDropped] only for applications that the
    initial listing returned with the enable label, whatever events it
    receives and also when it ends in a panic: an application that shows
    up later never gets a backend command. *)
Theorem fresh_provider_serves_scanned_apps_only host client inputs :
  Forall (cmd_ok TLB_ENABLED GetBoolean client)
    (fst (fst (Provide (NewMarathonProvider host) client inputs))).
Proof.
  unfold Provider.Provide, Marathon.start. cbn [fst apps NewMarathonProvider].
  refine (proj1 (triple_bind _ _ _ _ _ _ (triple_scanAllApps client)
                   (fun _ => triple_loop client inputs) ∅ _)).
  intros id. rewrite lookup_empty. by intros [? ?].
Qed.


End Provider.

Import Scenario Listing.

Lemma scan_records_last_enabled_witness :
  client_Applications (orchestrator [app1; app1_relabelled] [])
  = Some [app1; app1_relabelled]
  /\ Ref.scanAllApps (orchestrator [app1; app1_relabelled] []) ∅
     = ([AppUpdated app1_info;
         AddBackend {| AppId := "app1"; Node := "10.0.0.1:9000" |};
         AppUpdated {| AppInfo_AppId := "app1";
                       AppInfo_Labels := {[ Ref.TLB_ENABLED := "true" ]} |}],
        Ok (tt, {[ "app1" := {[ Ref.TLB_ENABLED := "true" ]} ]}))
  /\ ({[ "app1" := {[ Ref.TLB_ENABLED := "true" ]} ]}
      : gmap string Labels) !! "app1"
     = Some {[ Ref.TLB_ENABLED := "true" ]}.
Proof.
  assert (Hscan :
    Ref.scanAllApps (orchestrator [app1; app1_relabelled] []) ∅
    = ([AppUpdated app1_info;
        AddBackend {| AppId := "app1"; Node := "10.0.0.1:9000" |};
        AppUpdated {| AppInfo_AppId := "app1";
                      AppInfo_Labels := {[ Ref.TLB_ENABLED := "true" ]} |}],
       Ok (tt, {[ "app1" := {[ Ref.TLB_ENABLED := "true" ]} ]})))
    by (vm_compute; reflexivity).
  split; [reflexivity|]. split; [exact Hscan|].
  exact (scan_records_last_enabled
           Ref.TLB_ENABLED Ref.TLB_PORTINDEX Ref.GetBoolean Ref.GetInt
           (orchestrator [app1; app1_relabelled] [])
           [app1; app1_relabelled] ∅ _ _ "app1" eq_refl Hscan).
Defined.

Lemma scan_ends_at_first_bad_task_witness :
  client_Applications (orchestrator [app1; app2; app1] [])
  = Some ([app1] ++ app2 :: [app1])
  /\ Tasks app2 = [task1] ++ task_without_port :: [task1]
  /\ exists p,
       Ref.scanAllApps (orchestrator [app1; app2; app1] []) ∅
       = ([AppUpdated app1_info;
           AddBackend {| AppId := "app1"; Node := "10.0.0.1:9000" |};
           AppUpdated {| AppInfo_AppId := "app2";
                         AppInfo_Labels := app2_labels |};
           AddBackend {| AppId := "app2"; Node := "10.0.0.1:9000" |}],
          Panic p).
Proof.
  split; [reflexivity|]. split; [reflexivity|].
  refine (scan_ends_at_first_bad_task
            Ref.TLB_ENABLED Ref.TLB_PORTINDEX Ref.GetBoolean Ref.GetInt
            (orchestrator [app1; app2; app1] []) [app1] app2 [app1]
            [[AppUpdated app1_info;
              AddBackend {| AppId := "app1"; Node := "10.0.0.1:9000" |}]]
            [task1] task_without_port [task1] ["10.0.0.1:9000"] ∅
            eq_refl _ _ eq_refl _ _);
    vm_compute; reflexivity.
Defined.

Lemma loop_dies_on_bad_status_update_witness :
  (RecvStop ∉ [RecvEvent (orchestrator [] []) (api_request app1)])
  /\ is_Some (({[ "app1" := app1_labels ]} : gmap string Labels) !! "app1")
  /\ exists len,
       Ref.loop
         ([RecvEvent (orchestrator [] []) (api_request app1)]
          ++ RecvEvent (orchestrator [] [])
               (status "app1" "TASK_RUNNING" [ip "10.0.0.1"] [])
          :: [RecvEvent (orchestrator [] [])
                (status "app1" "TASK_RUNNING" [ip "10.0.0.1"] [9000%Z])])
         {[ "app1" := app1_labels ]}
       = ([AppDropped app1_info], Panic (IndexOutOfRange 0 len)).
Proof.
  assert (Hstop : RecvStop ∉ [RecvEvent (orchestrator [] [])
                                (api_request app1)]).
  { intros Hin. apply list_elem_of_singleton in Hin. discriminate. }
  assert (Hknown : is_Some (({[ "app1" := app1_labels ]}
                              : gmap string Labels) !! "app1")).
  { eexists. vm_compute. reflexivity. }
  split; [exact Hstop|]. split; [exact Hknown|].
  refine (loop_dies_on_bad_status_update Ref.TLB_PORTINDEX Ref.GetInt
            [RecvEvent (orchestrator [] []) (api_request app1)]
            (orchestrator [] [])
            {| AppID := "app1"; TaskStatus := "TASK_RUNNING";
               IPAddresses := [ip "10.0.0.1"]; Ports := [] |}
            [RecvEvent (orchestrator [] [])
               (status "app1" "TASK_RUNNING" [ip "10.0.0.1"] [9000%Z])]
            {[ "app1" := app1_labels ]} Hstop _ Hknown (or_intror eq_refl) _).
  - assert (snd (Marathon.loop Ref.TLB_PORTINDEX Ref.GetInt
                   [RecvEvent (orchestrator [] []) (api_request app1)]
                   {[ "app1" := app1_labels ]})
            = Ok (tt, {[ "app1" := app1_labels ]})) as ->
      by (vm_compute; reflexivity).
    intros p Hp. inversion Hp.
  - right. right. vm_compute. discriminate.
Defined.


End ProviderFacts.

(** * The backend list and the strategy change together *)

Module RecorderFacts.

Import Frontend Lock LockFacts Recorder.

Implicit Types (m : machine (list strategy_call)) (c : list instr)
  (tasks : list (list instr)).

Lemma outside_task_code ms : outside (task_code ms).
Proof.
  induction ms as [|meth ms IH]; [constructor|].
  change (task_code (meth :: ms)) with (code_of meth ++ task_code ms).
  destruct meth; simpl; by constructor.
Qed.

Lemma outside_pending c : outside c -> pending c = [].
Proof. by destruct 1. Qed.

Lemma shaped_tail i c : shaped (i :: c) -> shaped c.
Proof.
  intros Hs. inversion Hs as [? Ho| | | | | |]; subst;
    try (by constructor).
  inversion Ho; subst; by constructor.
Qed.

Lemma shaped_not_critical c : shaped c -> critical c = false -> pending c = [].
Proof.
  intros Hs. inversion Hs as [? Ho| | | | | |]; subst; try done.
  intros _. by apply outside_pending.
Qed.

Lemma pending_concat_insert_same tasks t c x :
  tasks !! t = Some c -> pending x = pending c ->
  concat (map pending (<[t := x]> tasks)) = concat (map pending tasks).
Proof.
  revert t. induction tasks as [|y tasks IH]; intros [|t] Ht Hp;
    simplify_eq/=; [by rewrite Hp|]. by rewrite (IH t).
Qed.

Lemma pending_concat_alone tasks t c x :
  tasks !! t = Some c ->
  (forall t' c', t' <> t -> tasks !! t' = Some c' -> pending c' = []) ->
  concat (map pending (<[t := x]> tasks)) = pending x.
Proof.
  revert t. induction tasks as [|y tasks IH]; intros [|t] Ht Ho;
    simplify_eq/=.
  - assert (concat (map pending tasks) = []) as ->; [|by rewrite app_nil_r].
    clear -Ho. induction tasks as [|z tasks IH]; [done|]. simpl.
    rewrite (Ho 1%nat z) by done. simpl. apply IH.
    intros [|t'] c' Hne Hl; [done|].
    by apply (Ho (Datatypes.S (Datatypes.S t')) c').
  - rewrite (Ho 0%nat y) by done. simpl. apply (IH t Ht).
    intros t' c' Hne Hl. apply (Ho (Datatypes.S t') c'); [congruence|done].
Qed.

(** When the task that moves is the one inside a call, no other task owes
    the strategy anything. *)
Lemma others_owe_nothing m t c :
  lock_inv m -> Forall shaped (m_tasks m) ->
  m_tasks m !! t = Some c -> critical c = true ->
  forall t' c', t' <> t -> m_tasks m !! t' = Some c' -> pending c' = [].
Proof.
  intros [_ Hh] Hs Ht Hc t' c' Hne Ht'.
  apply shaped_not_critical; [by eapply Forall_lookup_1|].
  destruct (critical c') eqn:Hc'; [|done].
  pose proof (holders_two _ _ _ _ _ Hne Ht' Ht Hc' Hc).
  destruct (m_locked m); lia.
Qed.

Lemma replay_app calls1 calls2 l :
  replay (calls1 ++ calls2) l = replay calls2 (replay calls1 l).
Proof. apply fold_left_app. Qed.

Lemma sync_inv_initial id prt l0 calls :
  sync_inv l0 (initial (NewFrontend [] id prt l0) calls).
Proof.
  split; [apply lock_inv_initial|]. split; simpl.
  - apply Forall_forall. intros c (ms & -> & _)%list_elem_of_fmap.
    constructor. apply outside_task_code.
  - assert (concat (map pending (map task_code calls)) = []) as ->; [|done].
    induction calls as [|ms calls IH]; [done|]. simpl.
    by rewrite (outside_pending _ (outside_task_code ms)).
Qed.

Lemma sync_inv_exec l0 t m m' :
  sync_inv l0 m -> exec t m = Some m' -> sync_inv l0 m'.
Proof.
  intros (Hlock & Hs & Hb) Hexec.
  pose proof (lock_inv_exec t m m' Hlock Hexec) as Hlock'.
  split; [exact Hlock'|]. revert Hexec. unfold exec.
  destruct (m_tasks m !! t) as [[|i rest]|] eqn:Ht; [done| |done].
  pose proof (Forall_lookup_1 _ _ _ _ Hs Ht) as Hc.
  pose proof (shaped_tail _ _ Hc) as Hrest.
  pose proof (others_owe_nothing m t (i :: rest) Hlock Hs Ht) as Hothers.
  pose proof (pending_concat_alone (m_tasks m) t (i :: rest)) as Halone.
  pose proof (pending_concat_insert_same (m_tasks m) t (i :: rest) rest Ht)
    as Hsame.
  assert (<[t := i :: rest]> (m_tasks m) = m_tasks m) as Hid
    by (by apply list_insert_id).
  destruct (action t i (m_frontend m) (m_locked m)) as [[[f' locked'] o]|]
    eqn:Ha; [|done].
  intros [= <-]. simpl. split; [by apply Forall_insert|].
  inversion Hc as [? Ho| | | | | |]; subst.
  - (* between two calls: a [Lock] or a [Lookup] *)
    inversion Ho; subst; simpl in Ha.
    + simplify_eq. simpl. rewrite Hsame by (by rewrite outside_pending).
      rewrite <- app_assoc, !replay_app. simpl.
      by rewrite Hb, replay_app.
    + destruct (m_locked m); simplify_eq. rewrite Hsame by done. exact Hb.
    + destruct (m_locked m); simplify_eq. rewrite Hsame by done. exact Hb.
    + destruct (m_locked m); simplify_eq. rewrite Hsame by done. exact Hb.
  - (* [f.backends = append(f.backends, backend)] *)
    simpl in Ha. simplify_eq. simpl.
    rewrite (Halone _ Ht (Hothers eq_refl)). simpl.
    rewrite replay_app. simpl. f_equal.
    rewrite Hb, <- Hid, (Halone _ Ht (Hothers eq_refl)). simpl.
    by rewrite app_nil_r.
  - (* [f.strategy.AddBackend(backend)] *)
    simpl in Ha. simplify_eq. simpl.
    rewrite (Halone _ Ht (Hothers eq_refl)). simpl. rewrite app_nil_r.
    rewrite Hb, <- Hid, (Halone _ Ht (Hothers eq_refl)). done.
  - (* the search and the cut *)
    simpl in Ha. unfold findIdxOfBackend in Ha.
    assert (backends f' = replay1 (backends (m_frontend m)) (SRemove b)
            /\ strategy f' = strategy (m_frontend m)) as [Hb' Hs'].
    { simpl. destruct (findIdx_from 0 (backends (m_frontend m)) b)
        as [idx [|]]; by simplify_eq. }
    rewrite Hb', Hs'.
    rewrite (Halone _ Ht (Hothers eq_refl)). cbn [pending].
    rewrite replay_app. cbn [replay fold_left]. f_equal.
    rewrite Hb, <- Hid, (Halone _ Ht (Hothers eq_refl)). simpl.
    by rewrite app_nil_r.
  - (* [f.strategy.RemoveBackend(backend)] *)
    simpl in Ha. simplify_eq. simpl.
    rewrite (Halone _ Ht (Hothers eq_refl)). simpl. rewrite app_nil_r.
    rewrite Hb, <- Hid, (Halone _ Ht (Hothers eq_refl)). done.
  - (* [len(f.backends)] *)
    simpl in Ha. simplify_eq. rewrite Hsame by done. exact Hb.
  - (* [Unlock] *)
    simpl in Ha. simplify_eq. simpl.
    rewrite Hsame by (by rewrite outside_pending). exact Hb.
Qed.

Lemma sync_inv_exec_schedule l0 sched m m' :
  sync_inv l0 m -> exec_schedule sched m = Some m' -> sync_inv l0 m'.
Proof.
  revert m. induction sched as [|t sched IH]; intros m Hinv; simpl.
  - by intros [= <-].
  - destruct (exec t m) as [m1|] eqn:He; [|done].
    apply IH. by eapply sync_inv_exec.
Qed.

(** X17. Give the Frontend a strategy that records the calls it
    receives.  However tasks calling [Lookup], [AddBackend],
    [RemoveBackend] and [LenOfBackends] are scheduled, whenever the
    mutex is free the backend list is the initial list with the
    [AddBackend] and [RemoveBackend] calls that the strategy has
    received applied to it in the order the strategy received them:
    the list and the strategy are changed together, and a [Lookup] in
    between does not disturb that. *)
Theorem list_and_strategy_change_together id prt l0 calls sched m' :
  exec_schedule sched (initial (NewFrontend [] id prt l0) calls) = Some m' ->
  m_locked m' = false ->
  backends (m_frontend m') = replay (strategy (m_frontend m')) l0.
Proof.
  intros Hrun Hfree.
  destruct (sync_inv_exec_schedule l0 _ _ _
              (sync_inv_initial id prt l0 calls) Hrun)
    as ([_ Hh] & Hs & Hb).
  rewrite Hfree in Hh.
  assert (concat (map pending (m_tasks m')) = []) as Hp.
  { revert Hs Hh. generalize (m_tasks m'). intros tasks.
    induction 1 as [|c tasks Hc _ IH]; [done|]. simpl.
    destruct (critical c) eqn:Hcr; [lia|]. intros Hh.
    rewrite (shaped_not_critical c Hc Hcr). simpl. by apply IH. }
  by rewrite Hb, Hp, app_nil_r.
Qed.

Lemma list_and_strategy_change_together_witness :
  exists m',
    exec_schedule [0; 0; 1; 0; 0; 2; 2; 2; 2]%nat
      (initial (NewFrontend [] "app1" "8080" ["n0"])
         [[MAddBackend "n1"]; [MLookup]; [MRemoveBackend "n0"]])
    = Some m'
    /\ m_locked m' = false
    /\ backends (m_frontend m') = ["n1"]
    /\ strategy (m_frontend m') = [SNext; SAdd "n1"; SRemove "n0"].
Proof.
  eexists. split; [vm_compute; reflexivity|]. split; [reflexivity|].
  split; [|reflexivity].
  refine (list_and_strategy_change_together "app1" "8080" ["n0"]
            [[MAddBackend "n1"]; [MLookup]; [MRemoveBackend "n0"]]
            [0; 0; 1; 0; 0; 2; 2; 2; 2]%nat _ _ _);
    [vm_compute; reflexivity | reflexivity].
Defined.

End RecorderFacts.
